(** * Greek learning bot: quiz generation, answer checking, statistics and
      session state, embedded from the Python sources.

    The relational store is modelled table by table (the [words] and
    [user_stats] tables as lists of rows, the [users] table as a finite map
    keyed by its primary key), the two sources of randomness (SQLite's
    [ORDER BY RANDOM()] and Python's [random] module) as an explicit stream
    of draws that is threaded through the code, Python exceptions as a
    second kind of outcome, and Python floats as IEEE 754 binary64 values
    ([spec_float] with [prec = 53], [emax = 1024]). *)

From Stdlib Require Import ZArith String Bool Lia SpecFloat.
From stdpp Require Import base option numbers list strings gmap.

Open Scope string_scope.
Open Scope list_scope.
Open Scope Z_scope.

(** ** Rows of the tables (database/models.py) *)

(** [words]: only the columns the quiz code reads; [id] is the primary key. *)
Module WordRow.
Record t := mk {
  id : Z;
  greek : string;
  russian : string;
  word_type : string
}.
End WordRow.

(** [users]: every column of the table. [user_id] is the primary key and is
    the key of the map that holds the rows; nullable columns are options. *)
Module UserRow.
Record t := mk {
  username : option string;
  first_name : option string;
  quiz_session_active : bool;
  auto_quiz_enabled : bool;
  questions_per_session : Z;
  session_interval_minutes : Z;
  last_auto_quiz : option Z;
  joined_at : Z
}.
End UserRow.

(** [user_stats]: the columns that [StatsService] reads and writes. The
    counters are Python integers, which are unbounded. *)
Module StatRow.
Record t := mk {
  user_id : Z;
  word_id : Z;
  correct_answers : Z;
  total_answers : Z;
  last_asked : Z
}.
End StatRow.

(** The dictionary returned by [QuizService.generate_quiz]. The key
    ['direction'] holds one of two strings; [true] stands for ['GR→RU'] and
    [false] for ['RU→GR']. *)
Module Quiz.
Record t := mk {
  word_id : Z;
  question : string;
  answers : list string;
  correct_index : nat;
  direction : bool;
  word_type : string
}.
End Quiz.

(** ** Outcomes of a call: a returned value or a raised exception *)

Inductive exn := ValueError | IndexError | IntegrityError.

Inductive outcome (A : Type) :=
| Returns (a : A)
| Raises (e : exn).
Arguments Returns {A} a.
Arguments Raises {A} e.

(** ** Randomness

    Every random decision of the program consumes one draw. A draw is a
    natural number that is reduced modulo the number of alternatives, so
    that each alternative can be chosen and nothing else can. *)

Definition Rng := list nat.

Definition rand_below (n : nat) (g : Rng) : nat * Rng :=
  match g with
  | [] => (0%nat, [])
  | r :: g' => ((r mod n)%nat, g')
  end.

(** A random permutation by repeated selection, used both for
    [random.shuffle] and for [ORDER BY RANDOM()]. The first argument bounds
    the number of selections and is the length of the list. *)
Fixpoint shuffle_n {A} (n : nat) (l : list A) (g : Rng) : list A * Rng :=
  match n with
  | O => ([], g)
  | S n' =>
      let '(i, g1) := rand_below (length l) g in
      match l !! i with
      | None => ([], g1)
      | Some x =>
          let '(rest, g2) := shuffle_n n' (delete i l) g1 in
          (x :: rest, g2)
      end
  end.

Definition shuffle {A} (l : list A) (g : Rng) : list A * Rng :=
  shuffle_n (length l) l g.

(** [random.choice([True, False])] *)
Definition random_choice_bool (g : Rng) : bool * Rng :=
  let '(i, g1) := rand_below 2 g in
  (match i with O => true | _ => false end, g1).

(** [SELECT ... ORDER BY RANDOM() LIMIT k] over the rows already selected by
    the [WHERE] clause. *)
Definition order_by_random_limit {A} (k : nat) (rows : list A) (g : Rng)
  : list A * Rng :=
  let '(p, g1) := shuffle rows g in (take k p, g1).

(** ** utils/wrong_answers.py *)

Definition generate_wrong_answers_for_word
    (words : list WordRow.t) (correct_word_id : Z) (word_type : string)
    (count : nat) (g : Rng) : list string * Rng :=
  let '(results, g1) :=
    order_by_random_limit count
      (filter (λ r, WordRow.id r ≠ correct_word_id
                    ∧ WordRow.word_type r = word_type) words) g in
  (WordRow.russian <$> results, g1).

Definition generate_wrong_answers_for_phrase
    (words : list WordRow.t) (correct_phrase : string)
    (count : nat) (g : Rng) : list string * Rng :=
  let '(results, g1) :=
    order_by_random_limit count
      (filter (λ r, WordRow.russian r ≠ correct_phrase
                    ∧ WordRow.word_type r = "phrase") words) g in
  (WordRow.russian <$> results, g1).

Definition generate_wrong_answers
    (words : list WordRow.t) (word_id : Z) (word_type : string)
    (correct_answer : string) (count : nat) (g : Rng) : list string * Rng :=
  if decide (word_type = "phrase")
  then generate_wrong_answers_for_phrase words correct_answer count g
  else generate_wrong_answers_for_word words word_id word_type count g.

(** ** services/quiz_service.py *)

(** [user_id] is accepted for a later adaptive selection and is not used. *)
Definition select_random_word (words : list WordRow.t)
    (user_id : option Z) (g : Rng) : option WordRow.t * Rng :=
  let '(results, g1) := order_by_random_limit 1 words g in
  (head results, g1).

(** [list.index]: the position of the first occurrence, [None] standing for
    the [ValueError] Python raises when there is none. *)
Fixpoint list_index (x : string) (l : list string) : option nat :=
  match l with
  | [] => None
  | y :: l' => if decide (y = x) then Some 0%nat else S <$> list_index x l'
  end.

Definition generate_quiz (words : list WordRow.t) (user_id : option Z)
    (g : Rng) : outcome (option Quiz.t) * Rng :=
  let '(word, g1) := select_random_word words user_id g in
  match word with
  | None => (Returns None, g1)
  | Some word =>
      let '(wrong_answers, g2) :=
        generate_wrong_answers words (WordRow.id word)
          (WordRow.word_type word) (WordRow.russian word) 3 g1 in
      if decide (length wrong_answers < 3)%nat then (Returns None, g2)
      else
        let '(is_greek_to_russian, g3) := random_choice_bool g2 in
        let '(question, correct_answer, wrong_answers, g4) :=
          if is_greek_to_russian
          then (WordRow.greek word, WordRow.russian word, wrong_answers, g3)
          else
            let '(results, g4) :=
              order_by_random_limit 3
                (filter (λ r, WordRow.id r ≠ WordRow.id word
                              ∧ WordRow.word_type r = WordRow.word_type word)
                   words) g3 in
            (WordRow.russian word, WordRow.greek word,
             WordRow.greek <$> results, g4) in
        let '(all_answers, g5) := shuffle (correct_answer :: wrong_answers) g4 in
        match list_index correct_answer all_answers with
        | None => (Raises ValueError, g5)
        | Some correct_index =>
            (Returns (Some (Quiz.mk (WordRow.id word) question all_answers
                              correct_index is_greek_to_russian
                              (WordRow.word_type word))), g5)
        end
  end.

(** [check_answer] compares two Python integers. *)
Definition check_answer (quiz_data : Quiz.t) (user_answer_index : Z) : bool :=
  bool_decide (user_answer_index = Z.of_nat (Quiz.correct_index quiz_data)).

(** ** Python floats

    A Python float is an IEEE 754 binary64 number; its operations are the
    ones of [SpecFloat] at precision 53 and maximal exponent 1024. *)

Definition prec : Z := 53.
Definition emax : Z := 1024.

(** [float(n)] for an integer [n]: the nearest binary64 number. *)
Definition float_of_int (n : Z) : spec_float :=
  binary_normalize prec emax n 0 false.

(** [a / b] on Python integers with [b ≠ 0]: the correctly rounded quotient
    of the two integers (for a zero divisor Python raises; the one call
    below is guarded by [total_questions > 0]). *)
Definition int_true_div (a b : Z) : spec_float :=
  match a with
  | Z0 => S754_zero (b <? 0)
  | _ =>
      SFdiv prec emax
        (S754_finite (a <? 0) (Z.to_pos (Z.abs a)) 0)
        (S754_finite (b <? 0) (Z.to_pos (Z.abs b)) 0)
  end.

(** [x * 100] for a float [x]: the integer is converted, then multiplied. *)
Definition float_mul_int (x : spec_float) (n : Z) : spec_float :=
  SFmul prec emax x (float_of_int n).

(** The integer nearest to [m * 2^e * 10], ties going to the even one. *)
Definition nearest_tenths (m : positive) (e : Z) : Z :=
  match e with
  | Zneg p =>
      let d := 2 ^ Zpos p in
      let n := 10 * Zpos m in
      let q := n / d in
      let r := n mod d in
      match 2 * r ?= d with
      | Lt => q
      | Gt => q + 1
      | Eq => if Z.even q then q else q + 1
      end
  | _ => 10 * Zpos m * 2 ^ e
  end.

(** [round(x, 1)]: the float is rounded, correctly and with ties to even, to
    a decimal with one digit after the point, and that decimal is converted
    back to the nearest float. Infinities and NaN are returned unchanged. *)
Definition round1 (x : spec_float) : spec_float :=
  match x with
  | S754_finite s m e =>
      match nearest_tenths m e with
      | Zpos t =>
          SFdiv prec emax (S754_finite s t 0) (S754_finite false 10 0)
      | _ => S754_zero s
      end
  | _ => x
  end.

(** ** services/stats_service.py *)

Module Stats.
Record t := mk {
  total_correct : Z;
  total_questions : Z;
  success_rate : spec_float
}.
End Stats.

(** [SELECT * FROM user_stats WHERE user_id = ? AND word_id = ?] *)
Definition select_stat (tbl : list StatRow.t) (user_id word_id : Z)
  : list StatRow.t :=
  filter (λ r, StatRow.user_id r = user_id ∧ StatRow.word_id r = word_id) tbl.

(** [UPDATE user_stats SET correct_answers = ?, total_answers = ?,
    last_asked = ? WHERE user_id = ? AND word_id = ?] *)
Definition update_stat (tbl : list StatRow.t)
    (new_correct new_total now user_id word_id : Z) : list StatRow.t :=
  (λ r, if decide (StatRow.user_id r = user_id ∧ StatRow.word_id r = word_id)
        then StatRow.mk user_id word_id new_correct new_total now
        else r) <$> tbl.

(** [INSERT INTO user_stats (...) VALUES (...)]; the table declares
    [UNIQUE(user_id, word_id)], and SQLite rejects a second row for a pair. *)
Definition insert_stat (tbl : list StatRow.t) (row : StatRow.t)
  : outcome (list StatRow.t) :=
  match select_stat tbl (StatRow.user_id row) (StatRow.word_id row) with
  | [] => Returns (tbl ++ [row])
  | _ :: _ => Raises IntegrityError
  end.

(** The second half of [record_answer]: the statement that is run once the
    rows [results] have been read. *)
Definition record_answer_write (results : list StatRow.t)
    (tbl : list StatRow.t) (user_id word_id : Z) (is_correct : bool)
    (now : Z) : outcome (list StatRow.t) :=
  match results with
  | stat :: _ =>
      let new_correct :=
        StatRow.correct_answers stat + (if is_correct then 1 else 0) in
      let new_total := StatRow.total_answers stat + 1 in
      Returns (update_stat tbl new_correct new_total now user_id word_id)
  | [] =>
      insert_stat tbl
        (StatRow.mk user_id word_id (if is_correct then 1 else 0) 1 now)
  end.

(** [StatsService.record_answer]; [now] is the value of [datetime.now()]. *)
Definition record_answer (tbl : list StatRow.t) (user_id word_id : Z)
    (is_correct : bool) (now : Z) : outcome (list StatRow.t) :=
  let results := select_stat tbl user_id word_id in
  record_answer_write results tbl user_id word_id is_correct now.

Definition sum_Z (l : list Z) : Z := foldr Z.add 0 l.

(** [StatsService.get_user_stats]. The aggregate query returns one row, and
    both sums are [NULL] exactly when no row of the user exists. *)
Definition get_user_stats (tbl : list StatRow.t) (user_id : Z) : Stats.t :=
  match filter (λ r, StatRow.user_id r = user_id) tbl with
  | [] => Stats.mk 0 0 (S754_zero false)
  | rows =>
      let total_correct := sum_Z (StatRow.correct_answers <$> rows) in
      let total_questions := sum_Z (StatRow.total_answers <$> rows) in
      let success_rate :=
        if decide (total_questions > 0)
        then float_mul_int (int_true_div total_correct total_questions) 100
        else S754_zero false in
      Stats.mk total_correct total_questions (round1 success_rate)
  end.

(** ** handlers/quiz.py

    The state a handler works on: the three tables, the per-user
    [context.user_data] entry ['current_quiz'] (a user without an entry, or
    whose entry is [None], is absent from the map), the messages handed to
    the chat transport so far (oldest first, with the chat they go to), and
    the remaining random draws. *)

Inductive Message :=
| NotEnoughWords                   (* "Недостаточно слов в базе ..." *)
| QuizQuestion (q : Quiz.t)        (* the question with its answer keyboard *)
| SessionAlreadyActive             (* "У вас уже активна сессия квиза ..." *)
| SessionStarted                   (* "Сессия квиза начата! ..." *)
| SessionStopped (s : Stats.t)     (* "Сессия квиза остановлена ..." + stats *)
| QuizDataNotFound                 (* "... данные квиза не найдены.
                                       Попробуйте /quiz снова." *)
| AnswerCorrect (s : Stats.t)      (* "Правильно!" + stats *)
| AnswerWrong (correct_answer : string) (s : Stats.t).

Record World := mkWorld {
  words : list WordRow.t;
  users : gmap Z UserRow.t;
  user_stats : list StatRow.t;
  user_data : gmap Z Quiz.t;
  sent : list (Z * Message);
  rng : Rng
}.

(** [update.effective_user] *)
Record TgUser := mkTgUser {
  tg_id : Z;
  tg_username : option string;
  tg_first_name : string
}.

(** What a handler leaves behind: the state after it returned, or the state
    at the moment an exception left it (every statement that ran before was
    committed by its own connection). *)
Inductive handled :=
| Done (w : World)
| Failed (e : exn) (w : World).

Definition world_of (h : handled) : World :=
  match h with Done w => w | Failed _ w => w end.

Definition send (chat : Z) (m : Message) (w : World) : World :=
  mkWorld (words w) (users w) (user_stats w) (user_data w)
          (sent w ++ [(chat, m)]) (rng w).

Definition set_rng (g : Rng) (w : World) : World :=
  mkWorld (words w) (users w) (user_stats w) (user_data w) (sent w) g.

Definition set_users (u : gmap Z UserRow.t) (w : World) : World :=
  mkWorld (words w) u (user_stats w) (user_data w) (sent w) (rng w).

Definition set_user_stats (t : list StatRow.t) (w : World) : World :=
  mkWorld (words w) (users w) t (user_data w) (sent w) (rng w).

Definition set_user_data (d : gmap Z Quiz.t) (w : World) : World :=
  mkWorld (words w) (users w) (user_stats w) d (sent w) (rng w).

(** [SELECT quiz_session_active FROM users WHERE user_id = ?] followed by
    [results and results[0]['quiz_session_active']] *)
Definition session_active (w : World) (user_id : Z) : bool :=
  match users w !! user_id with
  | Some row => UserRow.quiz_session_active row
  | None => false
  end.

Definition quiz_command (user : TgUser) (w : World) : handled :=
  let '(r, g) := generate_quiz (words w) (Some (tg_id user)) (rng w) in
  let w := set_rng g w in
  match r with
  | Raises e => Failed e w
  | Returns None => Done (send (tg_id user) NotEnoughWords w)
  | Returns (Some quiz_data) =>
      let w := set_user_data (<[tg_id user := quiz_data]> (user_data w)) w in
      Done (send (tg_id user) (QuizQuestion quiz_data) w)
  end.

(** [INSERT OR REPLACE INTO users (user_id, username, first_name,
    quiz_session_active) VALUES (?, ?, ?, 1)]: a row with the same primary
    key is deleted, and the new row takes the column defaults of the schema
    in every column the statement does not name. [now] is
    [CURRENT_TIMESTAMP]. *)
Definition insert_or_replace_user (tbl : gmap Z UserRow.t) (user : TgUser)
    (now : Z) : gmap Z UserRow.t :=
  <[tg_id user :=
      UserRow.mk (tg_username user) (Some (tg_first_name user)) true
                 true 5 15 None now]> tbl.

Definition quiz_session_command (user : TgUser) (now : Z) (w : World)
  : handled :=
  if session_active w (tg_id user)
  then Done (send (tg_id user) SessionAlreadyActive w)
  else
    let w := set_users (insert_or_replace_user (users w) user now) w in
    let w := send (tg_id user) SessionStarted w in
    quiz_command user w.

(** [UPDATE users SET quiz_session_active = 0 WHERE user_id = ?] *)
Definition deactivate_session (tbl : gmap Z UserRow.t) (user_id : Z)
  : gmap Z UserRow.t :=
  alter (λ r, UserRow.mk (UserRow.username r) (UserRow.first_name r) false
                (UserRow.auto_quiz_enabled r)
                (UserRow.questions_per_session r)
                (UserRow.session_interval_minutes r)
                (UserRow.last_auto_quiz r) (UserRow.joined_at r))
        user_id tbl.

Definition stop_command (user : TgUser) (w : World) : handled :=
  let w := set_users (deactivate_session (users w) (tg_id user)) w in
  let stats := get_user_stats (user_stats w) (tg_id user) in
  Done (send (tg_id user) (SessionStopped stats) w).

(** [answer_callback]. [answer_index] is the value of
    [int(query.data.split('_')[1])], or the exception that expression
    raises on callback data it cannot read; [now] is the clock read by
    [record_answer]. The one-second pause before the next question of a
    session changes no state. *)
Definition answer_callback (user : TgUser) (answer_index : outcome Z)
    (now : Z) (w : World) : handled :=
  match user_data w !! tg_id user with
  | None => Done (send (tg_id user) QuizDataNotFound w)
  | Some quiz_data =>
      match answer_index with
      | Raises e => Failed e w
      | Returns answer_index =>
          let is_correct := check_answer quiz_data answer_index in
          match record_answer (user_stats w) (tg_id user)
                  (Quiz.word_id quiz_data) is_correct now with
          | Raises e => Failed e w
          | Returns tbl =>
              let w := set_user_stats tbl w in
              let response :=
                if is_correct then Returns AnswerCorrect
                else
                  match Quiz.answers quiz_data
                        !! Quiz.correct_index quiz_data with
                  | Some correct_answer => Returns (AnswerWrong correct_answer)
                  | None => Raises IndexError
                  end in
              match response with
              | Raises e => Failed e w
              | Returns response =>
                  let stats := get_user_stats (user_stats w) (tg_id user) in
                  let w := send (tg_id user) (response stats) w in
                  let w := set_user_data (delete (tg_id user) (user_data w)) w in
                  if session_active w (tg_id user)
                  then
                    let '(r, g) := generate_quiz (words w) (Some (tg_id user)) (rng w) in
                    let w := set_rng g w in
                    match r with
                    | Raises e => Failed e w
                    | Returns None => Done w
                    | Returns (Some quiz_data) =>
                        let w :=
                          set_user_data
                            (<[tg_id user := quiz_data]> (user_data w)) w in
                        Done (send (tg_id user) (QuizQuestion quiz_data) w)
                    end
                  else Done w
              end
          end
      end
  end.

(** ** Two [record_answer] calls whose statements interleave

    [record_answer] runs two statements, each on a connection of its own
    that commits when the statement is done: the [SELECT], then the
    [UPDATE] or [INSERT] computed from the rows that were read. A call in
    progress is therefore in one of the following states. *)

Inductive call_state :=
| NotStarted
| HasRead (results : list StatRow.t)
| Finished
| Crashed (e : exn).

Record call := mkCall {
  call_user : Z;
  call_word : Z;
  call_correct : bool;
  call_now : Z;
  call_at : call_state
}.

Definition set_at (c : call) (s : call_state) : call :=
  mkCall (call_user c) (call_word c) (call_correct c) (call_now c) s.

(** One statement of one call. *)
Definition call_step (c : call) (tbl : list StatRow.t)
  : call * list StatRow.t :=
  match call_at c with
  | NotStarted =>
      (set_at c (HasRead (select_stat tbl (call_user c) (call_word c))), tbl)
  | HasRead results =>
      match record_answer_write results tbl (call_user c) (call_word c)
              (call_correct c) (call_now c) with
      | Returns tbl' => (set_at c Finished, tbl')
      | Raises e => (set_at c (Crashed e), tbl)
      end
  | Finished | Crashed _ => (c, tbl)
  end.

(** A schedule names, statement by statement, which of two calls runs:
    [false] the first, [true] the second. *)
Fixpoint run_schedule (sched : list bool) (c1 c2 : call)
    (tbl : list StatRow.t) : call * call * list StatRow.t :=
  match sched with
  | [] => (c1, c2, tbl)
  | false :: sched' =>
      let '(c1', tbl') := call_step c1 tbl in run_schedule sched' c1' c2 tbl'
  | true :: sched' =>
      let '(c2', tbl') := call_step c2 tbl in run_schedule sched' c1 c2' tbl'
  end.

(** The number of answers the table records for a pair. *)
Definition answers_recorded (tbl : list StatRow.t) (user_id word_id : Z) : Z :=
  sum_Z (StatRow.total_answers <$> select_stat tbl user_id word_id).

(** ** Notions used to state the properties of the quiz *)

(** The field of a row that is shown as an answer: the translation when the
    direction is GR→RU ([true]), the Greek term when it is RU→GR. *)
Definition answer_field (direction : bool) (r : WordRow.t) : string :=
  if direction then WordRow.russian r else WordRow.greek r.

(** The field that is shown as the question. *)
Definition question_field (direction : bool) (r : WordRow.t) : string :=
  if direction then WordRow.greek r else WordRow.russian r.

(** The rows distractors are drawn from: other phrases whose translation is
    not the correct text when translations of a phrase are asked for, and
    otherwise the rows of the same category with another id. *)
Definition distractor_rows (words : list WordRow.t) (word : WordRow.t)
    (direction : bool) : list WordRow.t :=
  if direction && bool_decide (WordRow.word_type word = "phrase")
  then filter (λ r, WordRow.russian r ≠ WordRow.russian word
                    ∧ WordRow.word_type r = "phrase") words
  else filter (λ r, WordRow.id r ≠ WordRow.id word
                    ∧ WordRow.word_type r = WordRow.word_type word) words.

(** The distractors available for a sampled word: the rows the distractor
    generator is asked to draw from when the quiz is requested. *)
Definition available_distractors (words : list WordRow.t) (word : WordRow.t)
  : list WordRow.t :=
  distractor_rows words word true.

(** The rows of one category. *)
Definition rows_of_type (words : list WordRow.t) (word_type : string)
  : list WordRow.t :=
  filter (λ r, WordRow.word_type r = word_type) words.

(** The rows [add_test_data] inserts (database/db.py); the statement names
    no id, so the ids continue from the largest one handed out so far. *)
Definition test_words (first_id : Z) : list WordRow.t :=
  [ WordRow.mk first_id "κάνω" "делать" "verb";
    WordRow.mk (first_id + 1) "Καλημέρα" "Доброе утро" "phrase";
    WordRow.mk (first_id + 2) "νερό" "вода" "noun";
    WordRow.mk (first_id + 3) "καλός" "хороший" "adjective";
    WordRow.mk (first_id + 4) "Ευχαριστώ" "Спасибо" "phrase";
    WordRow.mk (first_id + 5) "σπίτι" "дом" "noun";
    WordRow.mk (first_id + 6) "γρήγορα" "быстро" "adverb";
    WordRow.mk (first_id + 7) "εγώ" "я" "pronoun" ].

(** What [generate_quiz] returns, in terms of the word it sampled. *)
Inductive quiz_result (words : list WordRow.t) (word : WordRow.t)
  : outcome (option Quiz.t) → Prop :=
| quiz_insufficient :
    (length (available_distractors words word) < 3)%nat →
    quiz_result words word (Returns None)
| quiz_built (direction : bool) (p : list WordRow.t) (all : list string)
      (i : nat) :
    (3 ≤ length (available_distractors words word))%nat →
    p ≡ₚ distractor_rows words word direction →
    all ≡ₚ answer_field direction word
           :: (answer_field direction <$> take 3 p) →
    list_index (answer_field direction word) all = Some i →
    quiz_result words word
      (Returns (Some (Quiz.mk (WordRow.id word)
                        (question_field direction word) all i direction
                        (WordRow.word_type word)))).

(** ** Notions used to state the properties of the statistics *)

(** The pair the [UNIQUE(user_id, word_id)] constraint ranges over. *)
Definition stat_key (r : StatRow.t) : Z * Z :=
  (StatRow.user_id r, StatRow.word_id r).

(** The number of correct answers the table records for a pair. *)
Definition correct_recorded (tbl : list StatRow.t) (user_id word_id : Z) : Z :=
  sum_Z (StatRow.correct_answers <$> select_stat tbl user_id word_id).

(** [correct_count] and [total_count] of a row are ordered as the data
    model asks. *)
Definition counts_ordered (r : StatRow.t) : Prop :=
  0 ≤ StatRow.correct_answers r ≤ StatRow.total_answers r.

(** The totals of a user over all of the user's rows. *)
Definition user_correct (tbl : list StatRow.t) (user_id : Z) : Z :=
  sum_Z (StatRow.correct_answers
         <$> filter (λ r, StatRow.user_id r = user_id) tbl).

Definition user_total (tbl : list StatRow.t) (user_id : Z) : Z :=
  sum_Z (StatRow.total_answers
         <$> filter (λ r, StatRow.user_id r = user_id) tbl).

(** [round(total_correct / total_questions * 100, 1)], with [0.0] for the
    percentage when there are no questions. *)
Definition success_rate_of (total_correct total_questions : Z) : spec_float :=
  round1 (if decide (total_questions > 0)
          then float_mul_int (int_true_div total_correct total_questions) 100
          else S754_zero false).

(** A user answers a series of questions: [record_answer] is called once
    for each (word, correctness, time) in turn. *)
Fixpoint record_answers (tbl : list StatRow.t) (user_id : Z)
    (answers : list (Z * bool * Z)) : outcome (list StatRow.t) :=
  match answers with
  | [] => Returns tbl
  | (word_id, is_correct, now) :: answers' =>
      match record_answer tbl user_id word_id is_correct now with
      | Returns tbl' => record_answers tbl' user_id answers'
      | Raises e => Raises e
      end
  end.

(** The number of correct answers in a series. *)
Definition count_correct (answers : list (Z * bool * Z)) : Z :=
  Z.of_nat (length (filter (λ a, a.1.2 = true) answers)).

(** ** Notions used to state the properties of the floats *)

(** The float nearest to the decimal [t / 10]. *)
Definition decimal_tenths (t : Z) : spec_float :=
  match t with
  | Zpos p => SFdiv prec emax (S754_finite false p 0) (S754_finite false 10 0)
  | _ => S754_zero false
  end.

(** The record [mrs] locates the fraction [N / D]: its mantissa is the
    integer part, and its round and sticky bits tell where the remainder
    lies with respect to one half. *)
Definition locates (N D : Z) (mrs : shr_record) : Prop :=
  ∃ R, N = shr_m mrs * D + R ∧ 0 ≤ R < D ∧ 0 ≤ shr_m mrs
    ∧ shr_r mrs = (D <=? 2 * R)
    ∧ shr_s mrs = negb (R =? 0) && negb (2 * R =? D).

Ltac cases_Z :=
  repeat match goal with
  | |- context [?a <=? ?b] => destruct (Z.leb_spec a b)
  | |- context [?a =? ?b] => destruct (Z.eqb_spec a b)
  end; simpl; try lia; try done.

(** ** database/db.py: the test data

    [add_test_data] runs one [INSERT OR IGNORE INTO words (greek, russian,
    word_type)] for each of eight rows. The statement names no id, so the
    id is the next value of the [AUTOINCREMENT] key; the code never deletes
    a word, so that is one more than the largest id in the table. A row
    whose [word_type] fails the [CHECK] constraint of the table is
    ignored. *)

Definition allowed_word_types : list string :=
  ["noun"; "verb"; "adjective"; "adverb"; "pronoun"; "preposition";
   "conjunction"; "phrase"].

Definition next_word_id (words : list WordRow.t) : Z :=
  1 + foldr Z.max 0 (WordRow.id <$> words).

Definition insert_or_ignore_word (words : list WordRow.t)
    (values : string * string * string) : list WordRow.t :=
  let '(greek, russian, word_type) := values in
  if decide (word_type ∈ allowed_word_types)
  then words ++ [WordRow.mk (next_word_id words) greek russian word_type]
  else words.

Definition test_data : list (string * string * string) :=
  [ ("κάνω", "делать", "verb");
    ("Καλημέρα", "Доброе утро", "phrase");
    ("νερό", "вода", "noun");
    ("καλός", "хороший", "adjective");
    ("Ευχαριστώ", "Спасибо", "phrase");
    ("σπίτι", "дом", "noun");
    ("γρήγορα", "быстро", "adverb");
    ("εγώ", "я", "pronoun") ].

Definition add_test_data (words : list WordRow.t) : list WordRow.t :=
  foldl insert_or_ignore_word words test_data.

(** The number of rows that carry a given term, translation and category. *)
Definition count_word (words : list WordRow.t)
    (values : string * string * string) : nat :=
  length (filter (λ r, (WordRow.greek r, WordRow.russian r,
                        WordRow.word_type r) = values) words).

(** ** handlers/quiz.py: the handlers as they are registered

    [get_quiz_handlers] binds the commands [/quiz], [/quiz_session] and
    [/stop] and the callbacks whose data starts with ["answer_"] to the four
    handlers; the application runs the handler of each update in turn and
    goes on to the next update when a handler raised. *)

Inductive Event :=
| QuizCmd (user : TgUser)
| QuizSessionCmd (user : TgUser) (now : Z)
| StopCmd (user : TgUser)
| AnswerPressed (user : TgUser) (answer_index : outcome Z) (now : Z).

Definition handle (ev : Event) (w : World) : handled :=
  match ev with
  | QuizCmd user => quiz_command user w
  | QuizSessionCmd user now => quiz_session_command user now w
  | StopCmd user => stop_command user w
  | AnswerPressed user answer_index now =>
      answer_callback user answer_index now w
  end.

Fixpoint run (events : list Event) (w : World) : World :=
  match events with
  | [] => w
  | ev :: events' => run events' (world_of (handle ev w))
  end.

(** An update the handlers can read: every command, and every button press
    whose callback data holds an integer. *)
Definition readable (ev : Event) : Prop :=
  match ev with
  | AnswerPressed _ (Raises _) _ => False
  | _ => True
  end.

(** The state the handlers keep: the uniqueness constraint of [user_stats],
    ordered counters, and stored quizzes whose correct index lies inside
    their answer list. *)
Definition well_formed (w : World) : Prop :=
  NoDup (stat_key <$> user_stats w)
  ∧ Forall counts_ordered (user_stats w)
  ∧ map_Forall (λ _ q, (Quiz.correct_index q < length (Quiz.answers q))%nat)
      (user_data w).

(** The replies that report the result of an answer. *)
Definition is_answer_reply (m : Message) : bool :=
  match m with
  | AnswerCorrect _ | AnswerWrong _ _ => true
  | _ => false
  end.

(** The number of answer results sent to a chat. *)
Definition answer_replies (w : World) (chat : Z) : Z :=
  Z.of_nat (length (filter (λ cm, cm.1 = chat ∧ is_answer_reply cm.2 = true)
                      (sent w))).

(** The exceptions the handlers raised while a series of updates ran. *)
Fixpoint run_failures (events : list Event) (w : World) : list exn :=
  match events with
  | [] => []
  | ev :: events' =>
      match handle ev w with
      | Done w' => run_failures events' w'
      | Failed e w' => e :: run_failures events' w'
      end
  end.

(** The reply to an answer: the verdict with the statistics, which names
    the correct answer when the verdict is "wrong". *)
Definition answer_reply (quiz_data : Quiz.t) (answer_index : Z)
    (correct_answer : string) (stats : Stats.t) : Message :=
  if check_answer quiz_data answer_index then AnswerCorrect stats
  else AnswerWrong correct_answer stats.

(** ** A vocabulary, a state and a series of updates to try things on *)

(** The test data with two more nouns, so that nouns can be asked. *)
Definition vocabulary_example : list WordRow.t :=
  test_words 1 ++ [WordRow.mk 9 "ψωμί" "хлеб" "noun";
                   WordRow.mk 10 "γάλα" "молоко" "noun"].

(** User 8 has an open question and no session; user 9 has an open question
    in an active session and one answer on record. *)
Definition world_example : World :=
  mkWorld vocabulary_example
    {[ 9 := UserRow.mk None (Some "Nikos") true true 5 15 None 100 ]}
    [StatRow.mk 9 3 1 1 50]
    (<[ 8 := Quiz.mk 3 "вода" ["σπίτι"; "νερό"; "ψωμί"; "γάλα"] 1 false
               "noun" ]>
     (<[ 9 := Quiz.mk 6 "σπίτι" ["дом"; "вода"; "хлеб"; "молоко"] 0 true
                "noun" ]> ∅))
    []
    (2 :: replicate 12 0 ++ [0; 0; 0; 0; 0; 5])%nat.

Definition events_example : list Event :=
  [ AnswerPressed (mkTgUser 9 None "Nikos") (Returns 0) 300;
    AnswerPressed (mkTgUser 9 None "Nikos") (Returns 7) 310;
    StopCmd (mkTgUser 9 None "Nikos");
    QuizCmd (mkTgUser 8 None "Eleni");
    AnswerPressed (mkTgUser 8 None "Eleni") (Returns 2) 320;
    AnswerPressed (mkTgUser 8 None "Eleni") (Returns 2) 330;
    QuizSessionCmd (mkTgUser 8 None "Eleni") 340 ].

(** * Properties *)

(** ** Random draws and permutations *)

Lemma rand_below_lt (n : nat) (g : Rng) :
  (0 < n)%nat → (fst (rand_below n g) < n)%nat.
Proof.
  intros Hn. destruct g as [|r g]; simpl; [done|].
  apply Nat.mod_upper_bound. lia.
Qed.

Lemma shuffle_n_perm {A} (n : nat) : ∀ (l : list A) (g : Rng),
  length l = n → fst (shuffle_n n l g) ≡ₚ l.
Proof.
  induction n as [|n IH]; intros l g Hlen.
  - by destruct l.
  - simpl. pose proof (rand_below_lt (length l) g ltac:(lia)) as Hi.
    destruct (rand_below (length l) g) as [i g1]. simpl in Hi.
    destruct (lookup_lt_is_Some_2 l i Hi) as [x Hx]. rewrite Hx.
    specialize (IH (delete i l) g1).
    destruct (shuffle_n n (delete i l) g1) as [rest g2]. simpl in *.
    rewrite IH.
    + symmetry. by apply delete_Permutation.
    + rewrite length_delete; [lia | by eexists].
Qed.

Lemma shuffle_perm {A} (l : list A) (g : Rng) : fst (shuffle l g) ≡ₚ l.
Proof. by apply shuffle_n_perm. Qed.

(** Every ordering of the list is the outcome of some sequence of draws. *)
Lemma shuffle_n_complete {A} (p : list A) : ∀ (l : list A) (g' : Rng),
  l ≡ₚ p → ∃ g, shuffle_n (length l) l g = (p, g').
Proof.
  induction p as [|x p IH]; intros l g' Hp.
  - apply Permutation_nil_r in Hp as ->. by exists g'.
  - assert (x ∈ l) as Hin by (rewrite Hp; left).
    apply list_elem_of_lookup in Hin as [i Hi].
    assert (i < length l)%nat as Hlt by (by eapply lookup_lt_Some).
    assert (delete i l ≡ₚ p) as Hd.
    { apply (Permutation_cons_inv (a:=x)). by rewrite <- delete_Permutation. }
    destruct (IH (delete i l) g' Hd) as [g Hg].
    exists (i :: g).
    destruct l as [|y l]; [simpl in Hlt; lia|].
    change (length (y :: l)) with (S (length l)) at 1.
    cbn [shuffle_n rand_below].
    rewrite Nat.mod_small by done. rewrite Hi.
    assert (length (delete i (y :: l)) = length l) as Hl.
    { rewrite length_delete; [simpl; lia | by eexists]. }
    rewrite Hl in Hg. by rewrite Hg.
Qed.

Lemma shuffle_complete {A} (l p : list A) (g' : Rng) :
  l ≡ₚ p → ∃ g, shuffle l g = (p, g').
Proof. apply shuffle_n_complete. Qed.

Lemma order_by_random_limit_spec {A} (k : nat) (rows : list A) (g : Rng) :
  ∃ p, p ≡ₚ rows ∧ fst (order_by_random_limit k rows g) = take k p.
Proof.
  unfold order_by_random_limit. pose proof (shuffle_perm rows g) as Hp.
  destruct (shuffle rows g) as [p g1]. by exists p.
Qed.

Lemma order_by_random_limit_length {A} (k : nat) (rows : list A) (g : Rng) :
  length (fst (order_by_random_limit k rows g)) = (k `min` length rows)%nat.
Proof.
  destruct (order_by_random_limit_spec k rows g) as (p & Hp & ->).
  by rewrite length_take, Hp.
Qed.

(** ** [list.index] *)

Lemma list_index_lookup (x : string) (l : list string) (i : nat) :
  list_index x l = Some i → l !! i = Some x.
Proof.
  revert i. induction l as [|y l IH]; intros i; simpl; [done|].
  case_decide as Hy.
  - intros [= <-]. by subst.
  - destruct (list_index x l) as [j|]; simpl; [|done].
    intros [= <-]. by apply IH.
Qed.

Lemma list_index_elem_of (x : string) (l : list string) :
  x ∈ l → is_Some (list_index x l).
Proof.
  induction 1 as [|y z l Hin IH]; simpl.
  - rewrite decide_True by done. by eexists.
  - case_decide; [by eexists|]. destruct IH as [j ->]. by eexists.
Qed.

(** ** The shape of every result of [generate_quiz] *)

Lemma select_random_word_None (words : list WordRow.t) (user_id : option Z)
    (g : Rng) :
  fst (select_random_word words user_id g) = None ↔ words = [].
Proof.
  unfold select_random_word.
  destruct (order_by_random_limit_spec 1 words g) as (p & Hp & Hr).
  destruct (order_by_random_limit 1 words g) as [results g1].
  simpl in *. subst results. split.
  - destruct p as [|x p]; [|done]. intros _. by apply Permutation_nil_l in Hp.
  - intros ->. by apply Permutation_nil_r in Hp as ->.
Qed.

Lemma select_random_word_elem_of (words : list WordRow.t) (user_id : option Z)
    (g : Rng) word :
  fst (select_random_word words user_id g) = Some word → word ∈ words.
Proof.
  unfold select_random_word.
  destruct (order_by_random_limit_spec 1 words g) as (p & Hp & Hr).
  destruct (order_by_random_limit 1 words g) as [results g1].
  simpl in *. subst results. destruct p as [|x p]; [done|].
  intros [= <-]. rewrite <- Hp. left.
Qed.

Lemma generate_wrong_answers_spec words word (count : nat) (g : Rng) :
  ∃ p, p ≡ₚ available_distractors words word
       ∧ fst (generate_wrong_answers words (WordRow.id word)
                (WordRow.word_type word) (WordRow.russian word) count g)
         = WordRow.russian <$> take count p.
Proof.
  unfold generate_wrong_answers, available_distractors, distractor_rows.
  simpl. case_decide as Hty.
  - rewrite bool_decide_eq_true_2 by done.
    unfold generate_wrong_answers_for_phrase.
    destruct (order_by_random_limit_spec count
      (filter (λ r, WordRow.russian r ≠ WordRow.russian word
                    ∧ WordRow.word_type r = "phrase") words) g)
      as (p & Hp & Hr).
    destruct (order_by_random_limit _ _ g) as [results g1].
    simpl in *. subst. by exists p.
  - rewrite bool_decide_eq_false_2 by done.
    unfold generate_wrong_answers_for_word.
    destruct (order_by_random_limit_spec count
      (filter (λ r, WordRow.id r ≠ WordRow.id word
                    ∧ WordRow.word_type r = WordRow.word_type word) words) g)
      as (p & Hp & Hr).
    destruct (order_by_random_limit _ _ g) as [results g1].
    simpl in *. subst. by exists p.
Qed.

Lemma generate_quiz_result (words : list WordRow.t) (user_id : option Z)
    (g : Rng) :
  match fst (select_random_word words user_id g) with
  | None => fst (generate_quiz words user_id g) = Returns None
  | Some word => quiz_result words word (fst (generate_quiz words user_id g))
  end.
Proof.
  unfold generate_quiz.
  destruct (select_random_word words user_id g) as [[word|] g1]; simpl; [|done].
  destruct (generate_wrong_answers_spec words word 3 g1) as (p & Hp & Hw).
  destruct (generate_wrong_answers _ _ _ _ _ g1) as [wrong g2].
  simpl in Hw. subst wrong.
  assert (length (WordRow.russian <$> take 3 p)
          = (3 `min` length (available_distractors words word))%nat) as Hlen.
  { by rewrite length_fmap, length_take, Hp. }
  case_decide as Hshort; simpl.
  { apply quiz_insufficient. lia. }
  assert (3 ≤ length (available_distractors words word))%nat as Hav by lia.
  destruct (random_choice_bool g2) as [[|] g3].
  - pose proof (shuffle_perm
      (WordRow.russian word :: (WordRow.russian <$> take 3 p)) g3) as Hall.
    destruct (shuffle _ g3) as [all g5]. simpl in Hall.
    destruct (list_index_elem_of (WordRow.russian word) all) as [i Hi].
    { rewrite Hall. left. }
    rewrite Hi. simpl.
    by apply (quiz_built words word true p all i).
  - destruct (order_by_random_limit_spec 3
      (filter (λ r, WordRow.id r ≠ WordRow.id word
                    ∧ WordRow.word_type r = WordRow.word_type word) words) g3)
      as (p' & Hp' & Hr).
    destruct (order_by_random_limit _ _ g3) as [results g4].
    simpl in Hr. subst results.
    pose proof (shuffle_perm
      (WordRow.greek word :: (WordRow.greek <$> take 3 p')) g4) as Hall.
    destruct (shuffle _ g4) as [all g5]. simpl in Hall.
    destruct (list_index_elem_of (WordRow.greek word) all) as [i Hi].
    { rewrite Hall. left. }
    rewrite Hi. simpl.
    by apply (quiz_built words word false p' all i).
Qed.

(** ** Lists of rows *)

Lemma NoDup_fmap_eq {A B} (f : A → B) (l : list A) (x y : A) :
  NoDup (f <$> l) → x ∈ l → y ∈ l → f x = f y → x = y.
Proof.
  induction l as [|z l IH]; simpl; [by intros _ ?%elem_of_nil|].
  rewrite NoDup_cons. intros [Hz Hl] Hx Hy Hf.
  apply elem_of_cons in Hx as [->|Hx]; apply elem_of_cons in Hy as [->|Hy].
  - done.
  - destruct Hz. rewrite Hf. by apply list_elem_of_fmap_2.
  - destruct Hz. rewrite <- Hf. by apply list_elem_of_fmap_2.
  - by apply IH.
Qed.

Lemma filter_none {A} (P : A → Prop) `{!∀ x, Decision (P x)} (l : list A) :
  (∀ x, x ∈ l → ¬ P x) → filter P l = [].
Proof.
  induction l as [|x l IH]; intros Hno; [done|].
  rewrite filter_cons, decide_False by (apply Hno; left).
  apply IH. intros y Hy. apply Hno. by right.
Qed.

Lemma length_filter_impl {A} (P Q : A → Prop)
    `{!∀ x, Decision (P x)} `{!∀ x, Decision (Q x)} (l : list A) :
  (∀ x, x ∈ l → P x → Q x) →
  (length (filter P l) ≤ length (filter Q l))%nat.
Proof.
  induction l as [|x l IH]; intros Himp; [done|].
  rewrite !filter_cons.
  assert (length (filter P l) ≤ length (filter Q l))%nat as Hle.
  { apply IH. intros y Hy. apply Himp. by right. }
  destruct (decide (P x)) as [HP|HP].
  - rewrite decide_True by (apply Himp; [left|done]). simpl. lia.
  - destruct (decide (Q x)); simpl; lia.
Qed.

(** The rows the second fetch of a RU→GR quiz draws from are at least as
    many as the rows the first fetch drew from. *)
Lemma distractor_rows_length words word :
  NoDup (WordRow.id <$> words) → word ∈ words →
  (length (available_distractors words word)
   ≤ length (distractor_rows words word false))%nat.
Proof.
  intros Hids Hword. unfold available_distractors, distractor_rows. simpl.
  case_bool_decide as Hty; [|done].
  apply length_filter_impl. intros r Hr [Hru Hrt]. split; [|congruence].
  intros Hid. apply Hru. f_equal.
  by apply (NoDup_fmap_eq WordRow.id words).
Qed.

Lemma distractor_rows_sublist words word direction :
  distractor_rows words word direction
  `sublist_of` rows_of_type words (WordRow.word_type word).
Proof.
  unfold distractor_rows, rows_of_type.
  destruct (direction && bool_decide (WordRow.word_type word = "phrase"))
    eqn:Hc.
  - apply andb_prop in Hc as [_ Hty%bool_decide_eq_true_1]. rewrite Hty.
    rewrite <- (list_filter_filter
      (λ r, WordRow.russian r ≠ WordRow.russian word)
      (λ r, WordRow.word_type r = "phrase")).
    apply sublist_filter.
  - rewrite <- (list_filter_filter
      (λ r, WordRow.id r ≠ WordRow.id word)
      (λ r, WordRow.word_type r = WordRow.word_type word)).
    apply sublist_filter.
Qed.

(** No row distractors are drawn from carries the correct answer's text,
    provided the texts of the category are pairwise distinct. *)
Lemma distractor_rows_exclude words word direction r :
  NoDup (answer_field direction
         <$> rows_of_type words (WordRow.word_type word)) →
  word ∈ words → r ∈ distractor_rows words word direction →
  answer_field direction r ≠ answer_field direction word.
Proof.
  intros Hnd Hword Hr Heq.
  assert (r = word) as ->.
  { apply (NoDup_fmap_eq (answer_field direction)
             (rows_of_type words (WordRow.word_type word))); [done| |  |done].
    - eapply elem_of_sublist; [done|apply distractor_rows_sublist].
    - apply list_elem_of_filter. by split. }
  unfold distractor_rows in Hr.
  destruct (direction && bool_decide (WordRow.word_type word = "phrase"));
    apply list_elem_of_filter in Hr as [[Hne _] _]; by apply Hne.
Qed.

(** ** Quiz generation *)

(** C3. Whenever [generate_quiz] returns a quiz, the answer stored at
    [correct_index] of the shuffled answer list is the correct answer for
    the direction drawn: the [russian] field of the sampled word for GR→RU
    and its [greek] field for RU→GR. *)
Theorem generate_quiz_correct_index (words : list WordRow.t) (user_id : option Z)
    (g : Rng)
    (q : Quiz.t) :
  fst (generate_quiz words user_id g) = Returns (Some q) →
  ∃ word, fst (select_random_word words user_id g) = Some word
    ∧ Quiz.word_id q = WordRow.id word
    ∧ Quiz.answers q !! Quiz.correct_index q
      = Some (if Quiz.direction q then WordRow.russian word
              else WordRow.greek word).
Proof.
  intros Hq. pose proof (generate_quiz_result words user_id g) as Hres.
  destruct (fst (select_random_word words user_id g)) as [word|];
    [|by rewrite Hq in Hres].
  exists word. split; [done|]. rewrite Hq in Hres.
  inversion Hres as [|direction p all i Hav Hp Hall Hi Heq]; subst q.
  simpl. split; [done|].
  apply list_index_lookup in Hi. by destruct direction.
Qed.

Lemma generate_quiz_correct_index_witness :
  ∃ word, fst (select_random_word (test_words 1 ++ test_words 9) (Some 7) [2%nat])
          = Some word
    ∧ 3 = WordRow.id word
    ∧ ["вода"; "дом"; "вода"; "дом"] !! 0%nat
      = Some (if true then WordRow.russian word else WordRow.greek word).
Proof.
  apply (generate_quiz_correct_index (test_words 1 ++ test_words 9) (Some 7)
           [2%nat]
           (Quiz.mk 3 "νερό" ["вода"; "дом"; "вода"; "дом"] 0 true "noun")).
  vm_compute. reflexivity.
Defined.

(** C2. Over a [words] table whose ids are pairwise distinct (the primary
    key), [generate_quiz] returns [None] if and only if the vocabulary is
    empty or fewer than 3 distractors are available for the sampled word;
    every quiz it returns has exactly 4 answers, in either direction; and it
    raises no exception. *)
Theorem generate_quiz_none_iff (words : list WordRow.t) (user_id : option Z)
    (g : Rng) :
  NoDup (WordRow.id <$> words) →
  (fst (generate_quiz words user_id g) = Returns None ↔
     words = []
     ∨ ∃ word, fst (select_random_word words user_id g) = Some word
         ∧ (length (available_distractors words word) < 3)%nat)
  ∧ (∀ q, fst (generate_quiz words user_id g) = Returns (Some q) →
       length (Quiz.answers q) = 4%nat)
  ∧ (∀ e, fst (generate_quiz words user_id g) ≠ Raises e).
Proof.
  intros Hids. pose proof (generate_quiz_result words user_id g) as Hres.
  pose proof (select_random_word_None words user_id g) as Hnone.
  pose proof (select_random_word_elem_of words user_id g) as Hin.
  destruct (fst (select_random_word words user_id g)) as [word|].
  - specialize (Hin word eq_refl).
    assert (words ≠ []) as Hne by (intros ->; by apply elem_of_nil in Hin).
    repeat split.
    + intros Hq. right. exists word. split; [done|].
      rewrite Hq in Hres. by inversion Hres.
    + intros [->|(word' & [= <-] & Hlt)]; [done|].
      destruct Hres as [|direction p all i Hav]; [done|lia].
    + intros q Hq. rewrite Hq in Hres.
      inversion Hres as [|direction p all i Hav Hp Hall Hi Heq]; subst q.
      simpl. rewrite Hall. simpl. rewrite length_fmap, length_take, Hp.
      pose proof (distractor_rows_length words word Hids Hin).
      destruct direction; unfold available_distractors in *; lia.
    + intros e He. rewrite He in Hres. inversion Hres.
  - rewrite Hres. repeat split; try done.
    intros _. left. by apply Hnone.
Qed.

Lemma generate_quiz_none_iff_witness :
  (fst (generate_quiz (test_words 1) (Some 7) [2%nat]) = Returns None ↔
     test_words 1 = []
     ∨ ∃ word, fst (select_random_word (test_words 1) (Some 7) [2%nat]) = Some word
         ∧ (length (available_distractors (test_words 1) word) < 3)%nat)
  ∧ (∀ q, fst (generate_quiz (test_words 1) (Some 7) [2%nat]) = Returns (Some q) →
       length (Quiz.answers q) = 4%nat)
  ∧ (∀ e, fst (generate_quiz (test_words 1) (Some 7) [2%nat]) ≠ Raises e).
Proof.
  apply (generate_quiz_none_iff (test_words 1) (Some 7) [2%nat]).
  refine (bool_decide_unpack _ _). vm_compute. exact I.
Defined.

(** With one more noun than the test data has, a quiz on a noun still
    fails; with two more it is built and has four answers. *)
Example generate_quiz_three_nouns :
  fst (generate_quiz
         (test_words 1 ++ [WordRow.mk 9 "ψωμί" "хлеб" "noun"]) (Some 7)
         [2%nat])
  = Returns None.
Proof. vm_compute. reflexivity. Qed.

Example generate_quiz_four_nouns :
  fst (generate_quiz
         (test_words 1 ++ [WordRow.mk 9 "ψωμί" "хлеб" "noun";
                           WordRow.mk 10 "γάλα" "молоко" "noun"])
         (Some 7) (2 :: replicate 12 0 ++ [1; 0; 0; 0; 1])%nat)
  = Returns (Some (Quiz.mk 3 "вода" ["σπίτι"; "νερό"; "ψωμί"; "γάλα"] 1
                     false "noun")).
Proof. vm_compute. reflexivity. Qed.

Lemma filter_eq_not_elem_of (x : string) (l : list string) :
  x ∉ l → filter (λ a, a = x) l = [].
Proof.
  induction l as [|y l IH]; [done|].
  rewrite not_elem_of_cons. intros [Hy Hl].
  rewrite filter_cons, decide_False by done. by apply IH.
Qed.

Lemma NoDup_count_one (x : string) (l : list string) :
  NoDup l → x ∈ l → length (filter (λ a, a = x) l) = 1%nat.
Proof.
  induction l as [|y l IH]; [by intros _ ?%elem_of_nil|].
  rewrite NoDup_cons. intros [Hy Hl] Hx. rewrite filter_cons.
  apply elem_of_cons in Hx as [->|Hx].
  - rewrite decide_True by done. simpl.
    by rewrite filter_eq_not_elem_of.
  - rewrite decide_False by (by intros ->). by apply IH.
Qed.

(** Where the rows of the sampled word's category carry pairwise distinct
    texts in the field shown as answers, the answers of a returned quiz are
    pairwise distinct, the correct answer occurs exactly once, and no other
    position holds it: the answers are drawn by row id, so they repeat only
    where the table repeats a text. *)
Lemma generate_quiz_answers_distinct (words : list WordRow.t) (user_id : option Z)
    (g : Rng)
    (q : Quiz.t) :
  fst (generate_quiz words user_id g) = Returns (Some q) →
  NoDup (answer_field (Quiz.direction q)
         <$> rows_of_type words (Quiz.word_type q)) →
  NoDup (Quiz.answers q)
  ∧ ∃ correct, Quiz.answers q !! Quiz.correct_index q = Some correct
      ∧ length (filter (λ a, a = correct) (Quiz.answers q)) = 1%nat
      ∧ ∀ j a, j ≠ Quiz.correct_index q →
          Quiz.answers q !! j = Some a → a ≠ correct.
Proof.
  intros Hq Hnd. pose proof (generate_quiz_result words user_id g) as Hres.
  pose proof (select_random_word_elem_of words user_id g) as Hin.
  destruct (fst (select_random_word words user_id g)) as [word|];
    [|by rewrite Hq in Hres].
  specialize (Hin word eq_refl). rewrite Hq in Hres.
  inversion Hres as [|direction p all i Hav Hp Hall Hi Heq]; subst q.
  simpl in *.
  assert (NoDup all) as Hall_nd.
  { rewrite Hall. apply NoDup_cons. split.
    - intros (r & Heq & Hr)%list_elem_of_fmap.
      apply (distractor_rows_exclude words word direction r); [done..| |done].
      rewrite <- Hp. eapply elem_of_sublist; [done|apply sublist_take].
    - assert (NoDup (answer_field direction
                     <$> distractor_rows words word direction)) as Hd.
      { eapply sublist_NoDup; [exact Hnd|].
        apply fmap_sublist, distractor_rows_sublist. }
      rewrite <- Hp in Hd.
      eapply sublist_NoDup; [exact Hd|].
      apply fmap_sublist, sublist_take. }
  split; [done|].
  apply list_index_lookup in Hi.
  exists (answer_field direction word). split; [done|]. split.
  - apply NoDup_count_one; [done|]. by eapply list_elem_of_lookup_2.
  - intros j a Hj Ha ->. apply Hj.
    by apply (NoDup_lookup all j i (answer_field direction word)).
Qed.

Lemma generate_quiz_answers_distinct_witness :
  NoDup ["σπίτι"; "νερό"; "ψωμί"; "γάλα"]
  ∧ ∃ correct, ["σπίτι"; "νερό"; "ψωμί"; "γάλα"] !! 1%nat = Some correct
      ∧ length (filter (λ a, a = correct)
                  ["σπίτι"; "νερό"; "ψωμί"; "γάλα"]) = 1%nat
      ∧ ∀ j a, j ≠ 1%nat →
          ["σπίτι"; "νερό"; "ψωμί"; "γάλα"] !! j = Some a → a ≠ correct.
Proof.
  apply (generate_quiz_answers_distinct
           (test_words 1 ++ [WordRow.mk 9 "ψωμί" "хлеб" "noun";
                             WordRow.mk 10 "γάλα" "молоко" "noun"])
           (Some 7) (2 :: replicate 12 0 ++ [1; 0; 0; 0; 1])%nat
           (Quiz.mk 3 "вода" ["σπίτι"; "νερό"; "ψωμί"; "γάλα"] 1 false
              "noun")).
  - vm_compute. reflexivity.
  - refine (bool_decide_unpack _ _). vm_compute. exact I.
Defined.

(** C1. The code breaks the claim on the table the bot itself builds.
    [main] runs [add_test_data] at every start, the [words] table has no
    uniqueness constraint for [INSERT OR IGNORE] to act on, and the
    distractors of a word are excluded by row id only. After two starts on
    an empty table every test word is stored twice, and the quiz on "νερό"
    (row 3, Greek to Russian) has the answers "вода", "дом", "вода", "дом":
    they are not pairwise distinct, the correct answer occurs twice, and the
    answer at position 2, a distractor, is the correct translation. *)
Theorem generate_quiz_duplicate_answers :
  ∃ q, fst (generate_quiz (add_test_data (add_test_data [])) (Some 7) [2%nat])
       = Returns (Some q)
    ∧ Quiz.word_id q = 3
    ∧ Quiz.direction q = true
    ∧ Quiz.answers q = ["вода"; "дом"; "вода"; "дом"]
    ∧ Quiz.correct_index q = 0%nat
    ∧ ¬ NoDup (Quiz.answers q)
    ∧ length (filter (λ a, a = "вода") (Quiz.answers q)) = 2%nat
    ∧ Quiz.answers q !! 2%nat = Quiz.answers q !! Quiz.correct_index q.
Proof.
  eexists. split; [vm_compute; reflexivity|]. simpl.
  repeat split.
  intros Hnd. apply NoDup_cons in Hnd as [Hn _]. apply Hn.
  right. left.
Qed.

(** ** Answer checking *)

(** C6. [check_answer] is a function of the quiz and the selected index
    alone, so it reads and writes no state and returns for every integer;
    it is true exactly when the index is the quiz's [correct_index]. So the
    correct index is accepted, a negative index is rejected, and so is an
    index past the end of the answer list of a quiz whose correct index
    lies inside the list. *)
Theorem check_answer_iff (quiz_data : Quiz.t) (selected_index : Z) :
  (check_answer quiz_data selected_index = true
   ↔ selected_index = Z.of_nat (Quiz.correct_index quiz_data))
  ∧ (check_answer quiz_data selected_index = false
     ↔ selected_index ≠ Z.of_nat (Quiz.correct_index quiz_data))
  ∧ check_answer quiz_data (Z.of_nat (Quiz.correct_index quiz_data)) = true
  ∧ (selected_index < 0 → check_answer quiz_data selected_index = false)
  ∧ ((Quiz.correct_index quiz_data < length (Quiz.answers quiz_data))%nat →
     Z.of_nat (length (Quiz.answers quiz_data)) ≤ selected_index →
     check_answer quiz_data selected_index = false).
Proof.
  unfold check_answer. repeat split.
  - apply bool_decide_eq_true_1.
  - apply bool_decide_eq_true_2.
  - apply bool_decide_eq_false_1.
  - apply bool_decide_eq_false_2.
  - by apply bool_decide_eq_true_2.
  - intros Hneg. apply bool_decide_eq_false_2. lia.
  - intros Hin Hout. apply bool_decide_eq_false_2. lia.
Qed.

Lemma check_answer_iff_witness :
  check_answer
    (Quiz.mk 3 "νερό" ["дом"; "вода"; "хлеб"; "молоко"] 1 true "noun") 7
  = false.
Proof.
  destruct (check_answer_iff
              (Quiz.mk 3 "νερό" ["дом"; "вода"; "хлеб"; "молоко"] 1 true
                 "noun") 7) as (_ & _ & _ & _ & Hout).
  apply Hout; simpl; lia.
Defined.

(** The index stored in a generated quiz lies inside its answer list, so
    for generated quizzes every out-of-range selection is rejected. *)
Lemma generate_quiz_index_in_range (words : list WordRow.t) (user_id : option Z)
    (g : Rng)
    (q : Quiz.t) :
  fst (generate_quiz words user_id g) = Returns (Some q) →
  (Quiz.correct_index q < length (Quiz.answers q))%nat.
Proof.
  intros Hq. pose proof (generate_quiz_result words user_id g) as Hres.
  destruct (fst (select_random_word words user_id g)) as [word|];
    [|by rewrite Hq in Hres].
  rewrite Hq in Hres.
  inversion Hres as [|direction p all i Hav Hp Hall Hi Heq]; subst q.
  simpl. apply list_index_lookup in Hi. by eapply lookup_lt_Some.
Qed.

(** ** Statistics *)

(** The [UNIQUE(user_id, word_id)] constraint of [user_stats]. *)
Lemma select_stat_unique (tbl : list StatRow.t) (user_id word_id : Z) :
  NoDup (stat_key <$> tbl) →
  (length (select_stat tbl user_id word_id) ≤ 1)%nat.
Proof.
  unfold select_stat. induction tbl as [|r tbl IH]; simpl; [lia|].
  rewrite NoDup_cons. intros [Hr Hnd]. rewrite filter_cons.
  case_decide as Hk; [|by apply IH].
  simpl. rewrite filter_none; [simpl; lia|].
  intros r' Hr' [Hu Hw].
  apply Hr. apply list_elem_of_fmap. exists r'. split; [|done].
  unfold stat_key. destruct Hk. congruence.
Qed.

Lemma filter_fmap_stable {A} (P : A → Prop) `{!∀ x, Decision (P x)}
    (f : A → A) (l : list A) :
  (∀ x, P (f x) ↔ P x) → filter P (f <$> l) = f <$> filter P l.
Proof.
  intros Hf. induction l as [|x l IH]; [done|].
  rewrite fmap_cons, !filter_cons.
  destruct (decide (P x)) as [HP|HP].
  - rewrite decide_True by (by apply Hf). by rewrite fmap_cons, IH.
  - rewrite decide_False by (by rewrite Hf). done.
Qed.

Lemma fmap_id_on {A} (f : A → A) (l : list A) :
  (∀ x, x ∈ l → f x = x) → f <$> l = l.
Proof.
  induction l as [|x l IH]; intros Hf; [done|].
  rewrite fmap_cons, Hf by left. f_equal. apply IH.
  intros y Hy. apply Hf. by right.
Qed.

Lemma select_stat_key (tbl : list StatRow.t) (user_id word_id : Z) r :
  r ∈ select_stat tbl user_id word_id ↔
  stat_key r = (user_id, word_id) ∧ r ∈ tbl.
Proof.
  unfold select_stat, stat_key. rewrite list_elem_of_filter.
  split; intros [Hk Hr]; (split; [|done]).
  - destruct Hk. congruence.
  - by injection Hk.
Qed.

(** What one [record_answer] call does to a table that satisfies its
    uniqueness constraint. *)
Lemma record_answer_effect (tbl : list StatRow.t) (user_id word_id : Z)
    (is_correct : bool) (now : Z) :
  NoDup (stat_key <$> tbl) →
  ∃ tbl', record_answer tbl user_id word_id is_correct now = Returns tbl'
    ∧ NoDup (stat_key <$> tbl')
    ∧ select_stat tbl' user_id word_id
      = [StatRow.mk user_id word_id
           (correct_recorded tbl user_id word_id
            + (if is_correct then 1 else 0))
           (answers_recorded tbl user_id word_id + 1) now]
    ∧ filter (λ r, stat_key r ≠ (user_id, word_id)) tbl'
      = filter (λ r, stat_key r ≠ (user_id, word_id)) tbl
    ∧ length tbl'
      = match select_stat tbl user_id word_id with
        | [] => S (length tbl)
        | _ :: _ => length tbl
        end
    ∧ (Forall counts_ordered tbl → Forall counts_ordered tbl').
Proof.
  intros Hnd. pose proof (select_stat_unique tbl user_id word_id Hnd) as Hone.
  unfold record_answer, correct_recorded, answers_recorded.
  destruct (select_stat tbl user_id word_id) as [|stat rest] eqn:Hsel.
  - (* first answer to the pair: INSERT *)
    simpl. unfold insert_stat. simpl. rewrite Hsel.
    eexists. split; [done|]. repeat split.
    + rewrite fmap_app. apply NoDup_app. repeat split; [done| |apply NoDup_singleton].
      intros k (r & -> & Hr)%list_elem_of_fmap Hk.
      apply list_elem_of_singleton in Hk. simpl in Hk.
      assert (r ∈ select_stat tbl user_id word_id) as Hin
        by (by apply select_stat_key).
      rewrite Hsel in Hin. by apply elem_of_nil in Hin.
    + unfold select_stat in *. rewrite filter_app, Hsel. simpl.
      rewrite filter_cons, decide_True by done. done.
    + rewrite filter_app. rewrite (filter_none _ [_]); [by rewrite app_nil_r|].
      intros r ->%list_elem_of_singleton Hk. by apply Hk.
    + rewrite length_app. simpl. lia.
    + intros Hord. apply Forall_app. split; [done|].
      apply Forall_singleton. unfold counts_ordered. simpl.
      destruct is_correct; lia.
  - (* the pair has its row: UPDATE *)
    destruct rest as [|? ?]; [|simpl in Hone; lia].
    assert (stat_key stat = (user_id, word_id) ∧ stat ∈ tbl) as [Hkey Hstat].
    { apply select_stat_key. rewrite Hsel. left. }
    simpl. eexists. split; [done|]. unfold update_stat.
    set (f := λ r, if decide (StatRow.user_id r = user_id
                              ∧ StatRow.word_id r = word_id)
                   then StatRow.mk user_id word_id
                          (StatRow.correct_answers stat
                           + (if is_correct then 1 else 0))
                          (StatRow.total_answers stat + 1) now
                   else r).
    assert (∀ r, stat_key (f r) = stat_key r) as Hfkey.
    { intros r. unfold f. case_decide as Hk; [|done].
      unfold stat_key. simpl. destruct Hk. congruence. }
    repeat split.
    + rewrite <- list_fmap_compose.
      rewrite (list_fmap_ext _ stat_key tbl); [done|].
      intros i r _. apply Hfkey.
    + unfold select_stat in *.
      rewrite filter_fmap_stable.
      * rewrite Hsel. simpl. unfold f.
        injection Hkey as Hu Hw. rewrite decide_True by done.
        do 2 f_equal; lia.
      * intros r. pose proof (Hfkey r) as Hk. unfold stat_key in Hk.
        injection Hk as -> ->. done.
    + rewrite filter_fmap_stable by (intros r; by rewrite Hfkey).
      apply fmap_id_on. intros r [Hk _]%list_elem_of_filter.
      unfold f. rewrite decide_False; [done|].
      intros [Hu Hw]. apply Hk. unfold stat_key. congruence.
    + by rewrite length_fmap.
    + intros Hord. apply Forall_fmap. eapply Forall_impl; [exact Hord|].
      intros r Hr. simpl. unfold f. case_decide; [|done].
      rewrite Forall_forall in Hord. specialize (Hord stat Hstat).
      unfold counts_ordered in *. simpl. destruct is_correct; lia.
Qed.

(** C4. On a table that satisfies its [UNIQUE(user_id, word_id)]
    constraint, [record_answer] returns, and the table it leaves satisfies
    the constraint, holds exactly one row for the pair, whose
    [total_answers] is the count recorded before plus 1, whose
    [correct_answers] is the count recorded before plus 1 for a correct
    answer and plus 0 otherwise, and whose [last_asked] is the current
    time; a row is added only on the first answer to the pair, the rows of
    all other pairs are as before, and if every row had
    [0 ≤ correct_answers ≤ total_answers], every row still has. *)
Theorem record_answer_upsert (tbl : list StatRow.t) (user_id word_id : Z)
    (is_correct : bool) (now : Z) :
  NoDup (stat_key <$> tbl) →
  ∃ tbl', record_answer tbl user_id word_id is_correct now = Returns tbl'
    ∧ NoDup (stat_key <$> tbl')
    ∧ select_stat tbl' user_id word_id
      = [StatRow.mk user_id word_id
           (correct_recorded tbl user_id word_id
            + (if is_correct then 1 else 0))
           (answers_recorded tbl user_id word_id + 1) now]
    ∧ filter (λ r, stat_key r ≠ (user_id, word_id)) tbl'
      = filter (λ r, stat_key r ≠ (user_id, word_id)) tbl
    ∧ length tbl'
      = match select_stat tbl user_id word_id with
        | [] => S (length tbl)
        | _ :: _ => length tbl
        end
    ∧ (Forall counts_ordered tbl → Forall counts_ordered tbl').
Proof. apply record_answer_effect. Qed.

Lemma record_answer_upsert_witness :
  ∃ tbl', record_answer [StatRow.mk 7 3 1 2 100; StatRow.mk 7 4 0 1 150]
            7 3 true 200 = Returns tbl'
    ∧ select_stat tbl' 7 3 = [StatRow.mk 7 3 2 3 200]
    ∧ length tbl' = 2%nat.
Proof.
  destruct (record_answer_upsert
              [StatRow.mk 7 3 1 2 100; StatRow.mk 7 4 0 1 150] 7 3 true 200)
    as (tbl' & Hret & _ & Hrow & _ & Hlen & _).
  - refine (bool_decide_unpack _ _). vm_compute. exact I.
  - exists tbl'. split; [exact Hret|]. split; [exact Hrow|exact Hlen].
Defined.

Lemma sum_Z_app (l k : list Z) : sum_Z (l ++ k) = sum_Z l + sum_Z k.
Proof. unfold sum_Z. induction l as [|x l IH]; simpl; lia. Qed.

(** A user's total is the part recorded for one word plus the part
    recorded for all other words. *)
Lemma user_sum_split (f : StatRow.t → Z) (tbl : list StatRow.t)
    (user_id word_id : Z) :
  sum_Z (f <$> filter (λ r, StatRow.user_id r = user_id) tbl)
  = sum_Z (f <$> select_stat tbl user_id word_id)
    + sum_Z (f <$> filter (λ r, StatRow.user_id r = user_id)
                     (filter (λ r, stat_key r ≠ (user_id, word_id)) tbl)).
Proof.
  unfold select_stat, stat_key.
  induction tbl as [|r tbl IH]; [done|].
  rewrite !filter_cons.
  destruct (decide (StatRow.user_id r = user_id)) as [Hu|Hu];
    destruct (decide (StatRow.word_id r = word_id)) as [Hw|Hw].
  - rewrite decide_True by done.
    rewrite decide_False by (intros Hk; apply Hk; congruence).
    rewrite !fmap_cons. unfold sum_Z in *. simpl. lia.
  - rewrite decide_False by (by intros [_ ?]).
    rewrite decide_True by congruence.
    rewrite filter_cons, decide_True by done.
    rewrite !fmap_cons. unfold sum_Z in *. simpl. lia.
  - rewrite decide_False by (by intros [? _]).
    rewrite decide_True by congruence.
    rewrite filter_cons, decide_False by done. done.
  - rewrite decide_False by (by intros [? _]).
    rewrite decide_True by congruence.
    rewrite filter_cons, decide_False by done. done.
Qed.

Lemma record_answer_user_totals (tbl tbl' : list StatRow.t)
    (user_id word_id : Z) (is_correct : bool) (now : Z) :
  NoDup (stat_key <$> tbl) →
  record_answer tbl user_id word_id is_correct now = Returns tbl' →
  NoDup (stat_key <$> tbl')
  ∧ user_total tbl' user_id = user_total tbl user_id + 1
  ∧ user_correct tbl' user_id
    = user_correct tbl user_id + (if is_correct then 1 else 0)
  ∧ filter (λ r, StatRow.user_id r = user_id) tbl' ≠ [].
Proof.
  intros Hnd Hret.
  destruct (record_answer_effect tbl user_id word_id is_correct now Hnd)
    as (tbl'' & Hret' & Hnd' & Hrow & Hrest & _).
  rewrite Hret in Hret'. injection Hret' as <-.
  split; [done|]. unfold user_total, user_correct.
  rewrite !(user_sum_split _ tbl' user_id word_id).
  rewrite !(user_sum_split _ tbl user_id word_id).
  rewrite Hrow, Hrest.
  unfold answers_recorded, correct_recorded, sum_Z. simpl.
  repeat split; try lia.
  intros Hnil.
  assert (StatRow.mk user_id word_id
            (correct_recorded tbl user_id word_id
             + (if is_correct then 1 else 0))
            (answers_recorded tbl user_id word_id + 1) now
          ∈ select_stat tbl' user_id word_id) as Hin
    by (rewrite Hrow; left).
  apply select_stat_key in Hin as [_ Hin].
  eapply (filter_nil_not_elem_of _ _ _ Hnil); [|exact Hin]. done.
Qed.

Lemma record_answers_totals (user_id : Z) (answers : list (Z * bool * Z)) :
  ∀ tbl, NoDup (stat_key <$> tbl) →
  ∃ tbl', record_answers tbl user_id answers = Returns tbl'
    ∧ NoDup (stat_key <$> tbl')
    ∧ user_total tbl' user_id
      = user_total tbl user_id + Z.of_nat (length answers)
    ∧ user_correct tbl' user_id
      = user_correct tbl user_id + count_correct answers
    ∧ (answers ≠ [] → filter (λ r, StatRow.user_id r = user_id) tbl' ≠ []).
Proof.
  induction answers as [|[[word_id is_correct] now] answers IH]; intros tbl Hnd.
  - exists tbl. unfold count_correct. simpl. repeat split; [done|lia|lia|done].
  - simpl.
    destruct (record_answer_effect tbl user_id word_id is_correct now Hnd)
      as (tbl1 & Hret & _).
    rewrite Hret.
    destruct (record_answer_user_totals _ _ _ _ _ _ Hnd Hret)
      as (Hnd1 & Ht & Hc & Hne).
    destruct (IH tbl1 Hnd1) as (tbl' & Hrets & Hnd' & Ht' & Hc' & Hne').
    exists tbl'. split; [done|]. split; [done|].
    unfold count_correct in *. rewrite filter_cons. simpl.
    destruct is_correct; simpl; (repeat split; try lia);
      intros _; (destruct answers; [|by apply Hne']);
      simpl in Hrets; by injection Hrets as <-.
Qed.

Lemma get_user_stats_eq (tbl : list StatRow.t) (user_id : Z) :
  get_user_stats tbl user_id
  = match filter (λ r, StatRow.user_id r = user_id) tbl with
    | [] => Stats.mk 0 0 (S754_zero false)
    | _ :: _ =>
        Stats.mk (user_correct tbl user_id) (user_total tbl user_id)
          (success_rate_of (user_correct tbl user_id)
             (user_total tbl user_id))
    end.
Proof.
  unfold get_user_stats, user_correct, user_total, success_rate_of.
  by destruct (filter _ tbl) as [|r rows].
Qed.

(** ** Binary64 arithmetic of the success rate

    The rate is computed in three roundings: the division, the
    multiplication by 100 and [round(., 1)]. The lemmas below follow the
    definitions of [SpecFloat] through the shifts and the rounding of the
    mantissa and bound the error of each. *)

(** [round1] rounds to one decimal place: the number of tenths it keeps is
    an integer nearest to ten times the value of the float. *)
Lemma nearest_tenths_nearest (m : positive) (p : positive) :
  let t := nearest_tenths m (Zneg p) in
  - 2 ^ Zpos p ≤ 2 * (10 * Zpos m - t * 2 ^ Zpos p) ≤ 2 ^ Zpos p.
Proof.
  cbv zeta. unfold nearest_tenths.
  assert (0 < 2 ^ Z.pos p) as Hd by (apply Z.pow_pos_nonneg; lia).
  pose proof (Z.div_mod (10 * Z.pos m) (2 ^ Z.pos p) ltac:(lia)) as Hdm.
  pose proof (Z.mod_pos_bound (10 * Z.pos m) (2 ^ Z.pos p) Hd) as Hr.
  destruct (Z.compare_spec (2 * ((10 * Z.pos m) mod 2 ^ Z.pos p))
              (2 ^ Z.pos p)) as [Heq|Hlt|Hgt].
  - destruct (Z.even _); nia.
  - nia.
  - nia.
Qed.

Lemma nearest_tenths_integer (m : positive) (e : Z) :
  0 ≤ e → nearest_tenths m e = 10 * Zpos m * 2 ^ e.
Proof. intros He. unfold nearest_tenths. destruct e; [done|done|lia]. Qed.

(** The number of binary digits of a positive integer. *)
Lemma digits2_pos_bounds (p : positive) :
  2 ^ (Zpos (digits2_pos p) - 1) ≤ Zpos p < 2 ^ Zpos (digits2_pos p).
Proof.
  induction p as [p IH|p IH|]; simpl digits2_pos.
  - rewrite Pos2Z.inj_succ, Z.pow_succ_r by lia.
    replace (Z.succ (Z.pos (digits2_pos p)) - 1)
      with (Z.succ (Z.pos (digits2_pos p) - 1)) by lia.
    rewrite Z.pow_succ_r by lia. lia.
  - rewrite Pos2Z.inj_succ, Z.pow_succ_r by lia.
    replace (Z.succ (Z.pos (digits2_pos p)) - 1)
      with (Z.succ (Z.pos (digits2_pos p) - 1)) by lia.
    rewrite Z.pow_succ_r by lia. lia.
  - simpl. lia.
Qed.

Lemma Zdigits2_eq (m d : Z) :
  2 ^ (d - 1) ≤ m < 2 ^ d → 0 < d → Zdigits2 m = d.
Proof.
  intros [Hlo Hhi] Hd.
  assert (0 < m) as Hm.
  { pose proof (Z.pow_pos_nonneg 2 (d - 1)). lia. }
  destruct m as [|p|p]; try lia. simpl.
  pose proof (digits2_pos_bounds p) as [Hlo' Hhi'].
  set (D := Z.pos (digits2_pos p)) in *.
  destruct (Z.lt_trichotomy D d) as [Hlt|[Heq|Hgt]]; [|done|].
  - pose proof (Z.pow_le_mono_r 2 D (d - 1)). lia.
  - pose proof (Z.pow_le_mono_r 2 d (D - 1)). lia.
Qed.

(** Shifting the mantissa right by one bit halves the unit and keeps the
    located value. *)
Lemma shr_1_locates (N D : Z) (mrs : shr_record) :
  0 < D → locates N D mrs → locates N (2 * D) (shr_1 mrs).
Proof.
  intros HD (R & HN & HR & Hm & Hr & Hs).
  destruct mrs as [m r s]. simpl in *. subst r s.
  destruct m as [|[p|p|]|p]; try lia; simpl.
  - exists R. simpl. repeat split; try lia; cases_Z.
  - exists (D + R). simpl. repeat split; try lia; cases_Z.
  - exists R. simpl. repeat split; try lia; cases_Z.
  - exists (D + R). simpl. repeat split; try lia; cases_Z.
Qed.

Lemma iter_pos_nat {A} (f : A → A) (p : positive) (x : A) :
  SpecFloat.iter_pos f p x = Nat.iter (Pos.to_nat p) f x.
Proof.
  revert x. induction p as [p IH|p IH|]; intros x.
  - cbn [SpecFloat.iter_pos]. rewrite !IH.
    rewrite <- Nat.iter_succ_r, <- Nat.iter_add. f_equal. lia.
  - cbn [SpecFloat.iter_pos]. rewrite !IH.
    rewrite <- Nat.iter_add. f_equal. lia.
  - done.
Qed.

Lemma iter_shr_1_locates (N D : Z) (n : nat) (mrs : shr_record) :
  0 < D → locates N D mrs →
  locates N (D * 2 ^ Z.of_nat n) (Nat.iter n shr_1 mrs).
Proof.
  intros HD Hloc. induction n as [|n IH].
  - simpl. by rewrite Z.mul_1_r.
  - rewrite Nat2Z.inj_succ, Z.pow_succ_r by lia. simpl.
    replace (D * (2 * 2 ^ Z.of_nat n)) with (2 * (D * 2 ^ Z.of_nat n)) by lia.
    apply shr_1_locates; [|done].
    pose proof (Z.pow_pos_nonneg 2 (Z.of_nat n)). nia.
Qed.

(** Rounding a located fraction to nearest, ties to even. *)
Lemma round_nearest_even_locates (N D : Z) (mrs : shr_record) :
  0 < D → locates N D mrs →
  let m := round_nearest_even (shr_m mrs) (loc_of_shr_record mrs) in
  shr_m mrs ≤ m ≤ shr_m mrs + 1 ∧ - D ≤ 2 * (N - m * D) ≤ D.
Proof.
  intros HD (R & HN & HR & Hm & Hr & Hs).
  destruct mrs as [m r s]. simpl in *. subst r s N.
  cases_Z; try (destruct (Z.even m)); nia.
Qed.

Lemma shr_locates (N D : Z) (mrs : shr_record) (e n : Z) :
  0 < D → 0 ≤ n → locates N D mrs →
  locates N (D * 2 ^ n) (fst (shr mrs e n)) ∧ snd (shr mrs e n) = e + n.
Proof.
  intros HD Hn Hloc. destruct n as [|p|p]; [| |lia]; simpl.
  - rewrite Z.mul_1_r, Z.add_0_r. done.
  - split; [|done]. rewrite iter_pos_nat.
    rewrite <- (positive_nat_Z p) at 1.
    by apply iter_shr_1_locates.
Qed.

(** The exponent of a normal number. *)
Lemma fexp_normal (e : Z) :
  - 1021 ≤ e → fexp prec emax e = e - 53.
Proof. intros He. unfold fexp, SpecFloat.emin, prec, emax. lia. Qed.

(** [binary_round_aux] on a mantissa of at least 53 bits, away from the
    subnormal and the overflow range: the result is a normal float that is
    nearest to the located value. *)
Lemma binary_round_aux_spec (N D mx ex n : Z) (lx : location) :
  0 < D → 0 < mx → 0 ≤ n →
  locates N D (shr_record_of_loc mx lx) →
  2 ^ (52 + n) ≤ mx < 2 ^ (53 + n) →
  - 1074 ≤ ex + n ≤ 970 →
  ∃ m k,
    binary_round_aux prec emax false mx ex lx = S754_finite false m (ex + k)
    ∧ 2 ^ 52 ≤ Zpos m < 2 ^ 53
    ∧ n ≤ k ≤ n + 1
    ∧ - (D * 2 ^ k) ≤ 2 * (N - Zpos m * (D * 2 ^ k)) ≤ D * 2 ^ k.
Proof.
  intros HD Hmx Hn Hloc Hbits Hex.
  assert (Zdigits2 mx = 53 + n) as Hdig.
  { apply Zdigits2_eq; [|lia]. by replace (53 + n - 1) with (52 + n) by lia. }
  unfold binary_round_aux, shr_fexp. rewrite Hdig.
  rewrite fexp_normal by lia.
  replace (53 + n + ex - 53 - ex) with n by lia.
  destruct (shr_locates N D (shr_record_of_loc mx lx) ex n HD Hn Hloc)
    as [Hloc' He'].
  destruct (shr (shr_record_of_loc mx lx) ex n) as [mrs' e']. simpl in *.
  subst e'.
  assert (0 < 2 ^ n) as Hpow by (apply Z.pow_pos_nonneg; lia).
  assert (0 < D * 2 ^ n) as HD' by nia.
  pose proof (round_nearest_even_locates N (D * 2 ^ n) mrs' HD' Hloc')
    as [Hm_r Herr]. cbv zeta in *.
  set (m_r := round_nearest_even (shr_m mrs') (loc_of_shr_record mrs')) in *.
  assert (2 ^ 52 ≤ shr_m mrs' < 2 ^ 53) as Hm'.
  { destruct Hloc as (R0 & HN0 & HR0 & _).
    destruct Hloc' as (R' & HN' & HR' & Hm0 & _).
    assert (shr_m (shr_record_of_loc mx lx) = mx) as Hmx'
      by (by destruct lx as [|[]]).
    rewrite Hmx' in HN0.
    rewrite !Z.pow_add_r in Hbits by lia.
    assert (shr_m mrs' * 2 ^ n ≤ mx) by nia.
    assert (mx < (shr_m mrs' + 1) * 2 ^ n) by nia.
    split; nia. }
  destruct (decide (m_r = 2 ^ 53)) as [Hcarry|Hcarry].
  - rewrite Hcarry. exists (Z.to_pos (2 ^ 52)), (n + 1).
    replace (Zdigits2 (2 ^ 53)) with 54 by done.
    rewrite fexp_normal by lia.
    replace (54 + (ex + n) - 53 - (ex + n)) with 1 by lia.
    simpl shr. cbn [fst snd shr_m]. simpl shr_m.
    replace (ex + n + 1 <=? emax - prec) with true
      by (symmetry; apply Z.leb_le; unfold emax, prec; lia).
    replace (ex + n + 1) with (ex + (n + 1)) by lia.
    split; [done|]. split; [done|]. split; [lia|].
    rewrite Z.pow_add_r by lia.
    change (Z.pos (Z.to_pos (2 ^ 52))) with (2 ^ 52).
    rewrite Hcarry in Herr. change (2 ^ 53) with (2 ^ 52 * 2) in Herr.
    change (2 ^ 1) with 2. nia.
  - assert (2 ^ 52 ≤ m_r < 2 ^ 53) as Hm_rb by lia.
    destruct m_r as [|p|p] eqn:Hp; [lia| |lia].
    exists p, n.
    assert (Zdigits2 (Z.pos p) = 53) as -> by (by apply Zdigits2_eq).
    rewrite fexp_normal by lia.
    replace (53 + (ex + n) - 53 - (ex + n)) with 0 by lia.
    simpl shr. cbn [fst snd shr_m shr_record_of_loc].
    replace (ex + n <=? emax - prec) with true
      by (symmetry; apply Z.leb_le; unfold emax, prec; lia).
    split; [done|]. split; [done|]. split; [lia|]. lia.
Qed.

(** The location computed from the remainder of a division. *)
Lemma new_location_locates (Q q r : Z) :
  0 ≤ Q → 0 ≤ r < q →
  locates (Q * q + r) q (shr_record_of_loc Q (new_location q r)).
Proof.
  intros HQ Hr. exists r. unfold new_location.
  destruct (Z.even q) eqn:Hev.
  - unfold new_location_even.
    destruct (Z.eqb_spec r 0) as [->|Hr0]; simpl.
    + repeat split; try lia; cases_Z.
    + destruct (Z.compare_spec (2 * r) q); simpl;
        repeat split; try lia; cases_Z.
  - assert (Z.odd q = true) as Hodd by (by rewrite <- Z.negb_even, Hev).
    apply Z.odd_spec in Hodd as [h Hh].
    unfold new_location_odd.
    destruct (Z.eqb_spec r 0) as [->|Hr0]; simpl.
    + repeat split; try lia; cases_Z.
    + destruct (Z.compare_spec (2 * r + 1) q); simpl;
        repeat split; try lia; cases_Z.
Qed.

Lemma Zdigits2_bounds (m : Z) :
  0 < m → 0 < Zdigits2 m ∧ 2 ^ (Zdigits2 m - 1) ≤ m < 2 ^ Zdigits2 m.
Proof.
  intros Hm. destruct m as [|p|p]; try lia. simpl.
  split; [lia|apply digits2_pos_bounds].
Qed.

(** The quotient of two integers as Python computes it: a normal float
    within half a unit in the last place of the exact quotient. *)
Lemma int_true_div_spec (c q : Z) :
  0 < c ≤ q → q < 2 ^ 63 →
  ∃ m E, int_true_div c q = S754_finite false m (- E)
    ∧ 2 ^ 52 ≤ Zpos m < 2 ^ 53
    ∧ 51 ≤ E ≤ 116
    ∧ - q ≤ 2 * (c * 2 ^ E - Zpos m * q) ≤ q.
Proof.
  intros Hc Hq.
  destruct (Zdigits2_bounds c ltac:(lia)) as (Hd1 & Hc1).
  destruct (Zdigits2_bounds q ltac:(lia)) as (Hd2 & Hq1).
  set (d1 := Zdigits2 c) in *. set (d2 := Zdigits2 q) in *.
  assert (d1 ≤ d2) as Hd12.
  { destruct (Z.le_gt_cases d1 d2) as [|Hgt]; [done|].
    pose proof (Z.pow_le_mono_r 2 d2 (d1 - 1)). lia. }
  assert (d2 ≤ 63) as Hd63.
  { destruct (Z.le_gt_cases d2 63) as [|Hgt]; [done|].
    pose proof (Z.pow_le_mono_r 2 63 (d2 - 1)). lia. }
  set (s := 53 + d2 - d1).
  assert (int_true_div c q
          = let '(Q, r) := Z.div_eucl (c * 2 ^ s) q in
            binary_round_aux prec emax false Q (d1 - d2 - 53)
              (new_location q r)) as ->.
  { unfold int_true_div. destruct c as [|pc|pc]; try lia.
    destruct q as [|pq|pq]; try lia.
    simpl Z.abs. simpl Z.to_pos. simpl (_ <? _).
    unfold SFdiv, SFdiv_core_binary. fold d1 d2.
    rewrite !Z.add_0_r, Z.sub_0_r.
    rewrite fexp_normal by lia.
    rewrite Z.min_l by lia.
    replace (0 - (d1 - d2 - 53)) with s by (unfold s; lia).
    destruct s as [|ps|ps] eqn:Hs; try (unfold s in Hs; lia).
    rewrite Z.shiftl_mul_pow2 by lia.
    by destruct (Z.div_eucl _ _). }
  assert (0 < 2 ^ s) as Hpow by (apply Z.pow_pos_nonneg; unfold s; lia).
  pose proof (Z_div_mod (c * 2 ^ s) q ltac:(lia)) as Hdm.
  destruct (Z.div_eucl (c * 2 ^ s) q) as [Q r]. destruct Hdm as [HN Hr].
  assert (2 ^ 52 ≤ Q < 2 ^ 54) as HQ.
  { assert (2 ^ (d1 - 1) * 2 ^ s = 2 ^ 52 * 2 ^ d2) as E1.
    { rewrite <- !Z.pow_add_r by (unfold s; lia). f_equal. unfold s. lia. }
    assert (2 ^ d1 * 2 ^ s = 2 ^ 54 * 2 ^ (d2 - 1)) as E2.
    { rewrite <- !Z.pow_add_r by (unfold s; lia). f_equal. unfold s. lia. }
    split.
    - assert (2 ^ 52 * q < (Q + 1) * q) by nia. nia.
    - assert (Q * q < 2 ^ 54 * q) by nia. nia. }
  assert (locates (c * 2 ^ s) q (shr_record_of_loc Q (new_location q r)))
    as Hloc.
  { rewrite HN, (Z.mul_comm q Q). apply new_location_locates; lia. }
  assert (∃ n, 0 ≤ n ≤ 1 ∧ 2 ^ (52 + n) ≤ Q < 2 ^ (53 + n)) as (n & Hn & HQn).
  { destruct (Z.lt_ge_cases Q (2 ^ 53)).
    - exists 0. simpl. lia.
    - exists 1. simpl. lia. }
  destruct (binary_round_aux_spec (c * 2 ^ s) q Q (d1 - d2 - 53) n
              (new_location q r)) as (m & k & Hres & Hm & Hk & Herr);
    try lia; try done.
  exists m, (s - k). rewrite Hres.
  split; [f_equal; unfold s; lia|]. split; [done|].
  split; [unfold s; lia|].
  assert (2 ^ s = 2 ^ (s - k) * 2 ^ k) as Hsplit.
  { rewrite <- Z.pow_add_r by (unfold s; lia). f_equal. lia. }
  assert (0 < 2 ^ k) as Hpk by (apply Z.pow_pos_nonneg; lia).
  rewrite Hsplit in Herr. nia.
Qed.

Lemma float_of_int_100 :
  float_of_int 100 = S754_finite false 7036874417766400 (-46).
Proof. reflexivity. Qed.

(** [x * 100] for a normal float [x]: a normal float within half a unit in
    the last place of the exact product. *)
Lemma float_mul_100_spec (m : positive) (E : Z) :
  2 ^ 52 ≤ Zpos m < 2 ^ 53 → 51 ≤ E ≤ 116 →
  ∃ m' k, float_mul_int (S754_finite false m (- E)) 100
          = S754_finite false m' (- (E + 46 - k))
    ∧ 2 ^ 52 ≤ Zpos m' < 2 ^ 53
    ∧ 52 ≤ k ≤ 54
    ∧ - 2 ^ k ≤ 2 * (Zpos m * (100 * 2 ^ 46) - Zpos m' * 2 ^ k) ≤ 2 ^ k.
Proof.
  intros Hm HE. unfold float_mul_int. rewrite float_of_int_100.
  unfold SFmul. simpl xorb.
  set (P := Z.pos (m * 7036874417766400)).
  assert (P = Zpos m * (100 * 2 ^ 46)) as HP by (unfold P; lia).
  assert (∃ n, 52 ≤ n ≤ 53 ∧ 2 ^ (52 + n) ≤ P < 2 ^ (53 + n))
    as (n & Hn & HPn).
  { destruct (Z.lt_ge_cases P (2 ^ 105)).
    - exists 52. simpl (52 + 52). simpl (53 + 52). split; [lia|].
      split; [|done]. rewrite HP.
      change (2 ^ 104) with (2 ^ 52 * (64 * 2 ^ 46)). nia.
    - exists 53. simpl (52 + 53). simpl (53 + 53). split; [lia|].
      split; [done|]. rewrite HP.
      change (2 ^ 106) with (2 ^ 53 * (128 * 2 ^ 46)). nia. }
  destruct (binary_round_aux_spec P 1 P (- E + -46) n loc_Exact)
    as (m' & k & Hres & Hm' & Hk & Herr); try lia.
  { exists 0. simpl. repeat split; try lia. }
  exists m', k. rewrite Hres.
  split; [f_equal; lia|]. split; [done|]. split; [lia|].
  rewrite <- HP. lia.
Qed.

Lemma round1_finite (m : positive) (e : Z) :
  round1 (S754_finite false m e) = decimal_tenths (nearest_tenths m e).
Proof. reflexivity. Qed.

(** The three rounding errors of the computation, put together. *)
Lemma rate_error_identity (c q t m1 m2 P1 P2 K T : Z) :
  P2 * K = P1 * T →
  2 * (1000 * c - t * q) * (P2 * K)
  = 10 * (100 * T) * (2 * (c * P1 - m1 * q))
    + 10 * q * (2 * (m1 * (100 * T) - m2 * K))
    + q * K * (2 * (10 * m2 - t * P2)).
Proof.
  intros H.
  transitivity (2000 * c * (P1 * T) - 2 * t * q * (P2 * K)).
  - rewrite <- H. ring.
  - ring.
Qed.

Lemma rate_error_bound (c q t m1 m2 P1 P2 K : Z) :
  0 ≤ c ≤ q → 0 < q ≤ 2 ^ 40 →
  2 ^ 52 ≤ m1 → 0 < K ≤ 2 ^ 54 → 0 < P2 →
  P2 * K = P1 * 2 ^ 46 →
  - q ≤ 2 * (c * P1 - m1 * q) ≤ q →
  - K ≤ 2 * (m1 * (100 * 2 ^ 46) - m2 * K) ≤ K →
  - P2 ≤ 2 * (10 * m2 - t * P2) ≤ P2 →
  - q ≤ 2 * (1000 * c - t * q) ≤ q.
Proof.
  intros Hc Hq Hm1 HK HP2 HPK HA HB HC.
  pose proof (rate_error_identity c q t m1 m2 P1 P2 K (2 ^ 46) HPK) as Hid.
  set (A := 2 * (c * P1 - m1 * q)) in *.
  set (B := 2 * (m1 * (100 * 2 ^ 46) - m2 * K)) in *.
  set (C := 2 * (10 * m2 - t * P2)) in *.
  set (W := 2 * (1000 * c - t * q)) in *.
  assert (m1 ≤ P1) as HP1 by (unfold A in HA; nia).
  assert (2 ^ 98 ≤ P2 * K) as Hbig.
  { rewrite HPK. change (2 ^ 98) with (2 ^ 52 * 2 ^ 46). nia. }
  assert (- (10 * (100 * 2 ^ 46) * q) ≤ 10 * (100 * 2 ^ 46) * A
          ≤ 10 * (100 * 2 ^ 46) * q) as HA' by lia.
  assert (- (10 * q * K) ≤ 10 * q * B ≤ 10 * q * K) as HB' by nia.
  assert (- (q * K * P2) ≤ q * K * C ≤ q * K * P2) as HC'.
  { assert (0 < q * K) by nia. nia. }
  assert (q * K ≤ 2 ^ 40 * 2 ^ 54) as HqK by nia.
  assert (q * K * P2 = q * (P2 * K)) as HqKP by ring.
  split.
  - destruct (Z.le_gt_cases (- q) W) as [|Hlt]; [done|exfalso].
    assert (W * (P2 * K) ≤ (- q - 1) * (P2 * K)) as Hw by nia.
    lia.
  - destruct (Z.le_gt_cases W q) as [|Hgt]; [done|exfalso].
    assert ((q + 1) * (P2 * K) ≤ W * (P2 * K)) as Hw by nia.
    lia.
Qed.

(** For a user with at most 2^40 answers, the reported rate is the float
    nearest to a decimal with one digit after the point that is nearest,
    among such decimals, to the exact percentage. *)
Lemma success_rate_nearest (c q : Z) :
  0 ≤ c ≤ q → 0 < q ≤ 2 ^ 40 →
  ∃ t, success_rate_of c q = decimal_tenths t
    ∧ - q ≤ 2 * (1000 * c - t * q) ≤ q.
Proof.
  intros Hc Hq. unfold success_rate_of. rewrite decide_True by lia.
  destruct (decide (c = 0)) as [->|Hc0].
  { exists 0. split; [|lia]. unfold int_true_div.
    replace (q <? 0) with false by (symmetry; apply Z.ltb_ge; lia).
    reflexivity. }
  destruct (int_true_div_spec c q) as (m1 & E1 & -> & Hm1 & HE1 & HA);
    [lia|lia|].
  destruct (float_mul_100_spec m1 E1 Hm1 HE1)
    as (m2 & k & -> & Hm2 & Hk & HB).
  rewrite round1_finite.
  destruct (E1 + 46 - k) as [|p|p] eqn:HE2; try lia.
  change (- Z.pos p) with (Z.neg p).
  pose proof (nearest_tenths_nearest m2 p) as HC. cbv zeta in HC.
  exists (nearest_tenths m2 (Z.neg p)). split; [done|].
  assert (0 < 2 ^ k ≤ 2 ^ 54) as HK.
  { split; [apply Z.pow_pos_nonneg; lia|apply Z.pow_le_mono_r; lia]. }
  assert (0 < 2 ^ Z.pos p) as HP2 by (apply Z.pow_pos_nonneg; lia).
  apply (rate_error_bound c q _ (Z.pos m1) (Z.pos m2) (2 ^ E1)
           (2 ^ Z.pos p) (2 ^ k)); try lia.
  rewrite <- !Z.pow_add_r by lia. f_equal. lia.
Qed.

Lemma user_totals_ordered (tbl : list StatRow.t) (user_id : Z) :
  Forall counts_ordered tbl →
  0 ≤ user_correct tbl user_id ≤ user_total tbl user_id.
Proof.
  unfold user_correct, user_total, sum_Z.
  induction 1 as [|r tbl Hr _ IH]; [done|].
  rewrite filter_cons. case_decide; [|done].
  unfold counts_ordered in Hr. rewrite !fmap_cons. cbn [foldr]. lia.
Qed.

(** C5. [get_user_stats] reports zero questions, zero correct answers and
    a rate of 0.0 for a user without rows; for a user with rows it reports
    the sums of [correct_answers] and of [total_answers] over the user's
    rows, and as rate the float [round(total_correct / total_questions *
    100, 1)]. After any series of answers recorded for a user who had none,
    the totals are the number of answers and the number of correct ones;
    after three correct and two incorrect answers the report is 5
    questions, 3 correct, rate 60.0. Where every row has
    [0 ≤ correct_answers ≤ total_answers] and the user has at most 2^40
    answers, the rate is a decimal with one digit after the point that is
    nearest to the exact percentage [100 * total_correct /
    total_questions]. *)
Theorem get_user_stats_spec (tbl : list StatRow.t) (user_id : Z) :
  (filter (λ r, StatRow.user_id r = user_id) tbl = [] →
   get_user_stats tbl user_id = Stats.mk 0 0 (S754_zero false))
  ∧ (filter (λ r, StatRow.user_id r = user_id) tbl ≠ [] →
     get_user_stats tbl user_id
     = Stats.mk (user_correct tbl user_id) (user_total tbl user_id)
         (success_rate_of (user_correct tbl user_id)
            (user_total tbl user_id)))
  ∧ (∀ answers,
       NoDup (stat_key <$> tbl) →
       filter (λ r, StatRow.user_id r = user_id) tbl = [] →
       answers ≠ [] →
       ∃ tbl', record_answers tbl user_id answers = Returns tbl'
         ∧ get_user_stats tbl' user_id
           = Stats.mk (count_correct answers) (Z.of_nat (length answers))
               (success_rate_of (count_correct answers)
                  (Z.of_nat (length answers))))
  ∧ (∀ answers,
       NoDup (stat_key <$> tbl) →
       filter (λ r, StatRow.user_id r = user_id) tbl = [] →
       length answers = 5%nat → count_correct answers = 3 →
       ∃ tbl', record_answers tbl user_id answers = Returns tbl'
         ∧ get_user_stats tbl' user_id = Stats.mk 3 5 (float_of_int 60))
  ∧ (Forall counts_ordered tbl → user_total tbl user_id ≤ 2 ^ 40 →
     ∃ t, Stats.success_rate (get_user_stats tbl user_id) = decimal_tenths t
       ∧ - Stats.total_questions (get_user_stats tbl user_id)
         ≤ 2 * (1000 * Stats.total_correct (get_user_stats tbl user_id)
                - t * Stats.total_questions (get_user_stats tbl user_id))
         ≤ Stats.total_questions (get_user_stats tbl user_id)).
Proof.
  assert (∀ answers,
       NoDup (stat_key <$> tbl) →
       filter (λ r, StatRow.user_id r = user_id) tbl = [] →
       answers ≠ [] →
       ∃ tbl', record_answers tbl user_id answers = Returns tbl'
         ∧ get_user_stats tbl' user_id
           = Stats.mk (count_correct answers) (Z.of_nat (length answers))
               (success_rate_of (count_correct answers)
                  (Z.of_nat (length answers)))) as Hseries.
  { intros answers Hnd Hnone Hne.
    destruct (record_answers_totals user_id answers tbl Hnd)
      as (tbl' & Hret & _ & Ht & Hc & Hrows).
    exists tbl'. split; [done|]. rewrite get_user_stats_eq.
    specialize (Hrows Hne).
    destruct (filter _ tbl') as [|r rows] eqn:Hf; [done|].
    rewrite Ht, Hc. unfold user_total, user_correct. rewrite Hnone.
    unfold sum_Z. simpl. by rewrite !Z.add_0_l. }
  rewrite get_user_stats_eq. repeat split.
  - by intros ->.
  - intros Hne. by destruct (filter _ tbl).
  - exact Hseries.
  - intros answers Hnd Hnone Hlen Hc.
    destruct (Hseries answers Hnd Hnone) as (tbl' & Hret & Hstats).
    { intros ->. simpl in Hlen. lia. }
    exists tbl'. split; [done|]. rewrite Hstats, Hlen, Hc.
    f_equal.
  - intros Hord Hbound.
    pose proof (user_totals_ordered tbl user_id Hord) as Htot.
    destruct (filter _ tbl) as [|r rows] eqn:Hrows.
    { exists 0. simpl. split; [done|lia]. }
    cbn [Stats.success_rate Stats.total_questions Stats.total_correct].
    destruct (decide (user_total tbl user_id = 0)) as [Hz|Hnz].
    + exists 0. rewrite Hz. unfold success_rate_of.
      rewrite decide_False by lia. split; [done|lia].
    + apply success_rate_nearest; lia.
Qed.

Lemma get_user_stats_spec_witness :
  ∃ tbl', record_answers [StatRow.mk 8 1 1 1 5] 7
            [(1, true, 10); (2, false, 20); (1, true, 30); (3, true, 40);
             (2, false, 50)] = Returns tbl'
    ∧ get_user_stats tbl' 7 = Stats.mk 3 5 (float_of_int 60).
Proof.
  destruct (get_user_stats_spec [StatRow.mk 8 1 1 1 5] 7)
    as (_ & _ & _ & Hscenario & _).
  apply Hscenario.
  - refine (bool_decide_unpack _ _). vm_compute. exact I.
  - reflexivity.
  - reflexivity.
  - reflexivity.
Defined.

(** The rate 60.0 as a binary64 number and as a decimal. *)
Example float_60 :
  float_of_int 60 = S754_finite false 8444249301319680 (-47)
  ∧ float_of_int 60 = decimal_tenths 600.
Proof. split; reflexivity. Qed.

(** Rates whose exact percentage is a tie go to the even tenth when the
    tie is a binary64 number: 1 of 16 is 6.25 percent, reported as 6.2. *)
Example success_rate_tie :
  success_rate_of 1 16 = decimal_tenths 62
  ∧ success_rate_of 3 16 = decimal_tenths 188
  ∧ success_rate_of 1 3 = decimal_tenths 333
  ∧ success_rate_of 2 3 = decimal_tenths 667.
Proof. repeat split; reflexivity. Qed.

(** ** Handlers *)

(** [quiz_command] touches neither table; it may store a quiz for the user
    and it sends one message at most. *)
Lemma quiz_command_tables (user : TgUser) (w : World) :
  let w' := world_of (quiz_command user w) in
  words w' = words w ∧ users w' = users w ∧ user_stats w' = user_stats w
  ∧ ∃ msgs, sent w' = sent w ++ msgs.
Proof.
  cbv zeta. unfold quiz_command.
  destruct (generate_quiz (words w) (Some (tg_id user)) (rng w)) as [[[q|]|e] g]; simpl;
    repeat split; try done; try (by eexists);
    exists []; by rewrite app_nil_r.
Qed.

(** C7. The session flag of a user is a two-state machine. A start request
    while the flag is active completes normally, sends the warning and
    leaves the tables, the stored quizzes and the random state as they
    were; a start request while it is inactive leaves the flag active and
    announces the session; a stop request leaves the flag inactive and
    sends the final report with the user's statistics. *)
Theorem session_flag_machine (user : TgUser) (now : Z) (w : World) :
  (session_active w (tg_id user) = true →
   quiz_session_command user now w
   = Done (mkWorld (words w) (users w) (user_stats w) (user_data w)
             (sent w ++ [(tg_id user, SessionAlreadyActive)]) (rng w)))
  ∧ (session_active w (tg_id user) = false →
     let w' := world_of (quiz_session_command user now w) in
     session_active w' (tg_id user) = true
     ∧ ∃ msgs, sent w' = sent w ++ (tg_id user, SessionStarted) :: msgs)
  ∧ (let w' := world_of (stop_command user w) in
     session_active w' (tg_id user) = false
     ∧ stop_command user w = Done w'
     ∧ sent w'
       = sent w ++ [(tg_id user,
                     SessionStopped
                       (get_user_stats (user_stats w) (tg_id user)))]).
Proof.
  split; [|split].
  - intros Hact. unfold quiz_session_command. by rewrite Hact.
  - intros Hidle. cbv zeta. unfold quiz_session_command. rewrite Hidle.
    destruct (quiz_command_tables user
      (send (tg_id user) SessionStarted
         (set_users (insert_or_replace_user (users w) user now) w)))
      as (_ & Hu & _ & msgs & Hs).
    split.
    + unfold session_active. rewrite Hu. simpl.
      unfold insert_or_replace_user. by rewrite lookup_insert_eq.
    + exists msgs. rewrite Hs. simpl. by rewrite <- app_assoc.
  - cbv zeta. split; [|done].
    unfold stop_command, session_active, deactivate_session. simpl.
    rewrite lookup_alter_eq. by destruct (users w !! tg_id user).
Qed.

Lemma session_flag_machine_witness :
  quiz_session_command (mkTgUser 8 (Some "eleni") "Eleni") 900
    (mkWorld (test_words 1)
       {[ 8 := UserRow.mk (Some "eleni") (Some "Eleni") true true 5 15 None
                 100 ]} [] ∅ [] [])
  = Done (mkWorld (test_words 1)
            {[ 8 := UserRow.mk (Some "eleni") (Some "Eleni") true true 5 15
                      None 100 ]} [] ∅ [(8, SessionAlreadyActive)] []).
Proof.
  destruct (session_flag_machine (mkTgUser 8 (Some "eleni") "Eleni") 900
              (mkWorld (test_words 1)
                 {[ 8 := UserRow.mk (Some "eleni") (Some "Eleni") true true
                           5 15 None 100 ]} [] ∅ [] []))
    as (Hactive & _).
  apply Hactive. reflexivity.
Defined.

(** C8. An answer from a user who has no stored quiz is answered with the
    "quiz data not found, try /quiz again" message and nothing else
    happens: the handler completes, and the tables (so every statistics
    row and every session flag), the stored quizzes and the random state
    are as before. *)
Theorem answer_without_quiz (user : TgUser) (answer_index : outcome Z)
    (now : Z) (w : World) :
  user_data w !! tg_id user = None →
  answer_callback user answer_index now w
  = Done (mkWorld (words w) (users w) (user_stats w) (user_data w)
            (sent w ++ [(tg_id user, QuizDataNotFound)]) (rng w)).
Proof. intros Hnone. unfold answer_callback. by rewrite Hnone. Qed.

(** Once an answer has been accepted the stored quiz is gone, so in a user
    without an active session a second answer to the same question is
    turned away and recorded nowhere. *)
Lemma answer_consumes_quiz (user : TgUser) (i : Z) (now : Z) (w w' : World) :
  session_active w (tg_id user) = false →
  answer_callback user (Returns i) now w = Done w' →
  user_data w' !! tg_id user = None.
Proof.
  unfold answer_callback. intros Hidle.
  destruct (user_data w !! tg_id user) as [quiz_data|] eqn:Hq.
  - destruct (record_answer _ _ _ _ _) as [tbl|e]; [|done].
    destruct (if check_answer quiz_data i then _ else _) as [response|e];
      [|done].
    unfold session_active in *. simpl. rewrite Hidle.
    intros [= <-]. simpl. apply lookup_delete_eq.
  - intros [= <-]. done.
Qed.

Lemma answer_without_quiz_witness :
  answer_callback (mkTgUser 8 None "Eleni") (Returns 2) 300
    (mkWorld (test_words 1) ∅ [StatRow.mk 7 3 1 2 100] ∅ [] [])
  = Done (mkWorld (test_words 1) ∅ [StatRow.mk 7 3 1 2 100] ∅
            [(8, QuizDataNotFound)] []).
Proof.
  apply (answer_without_quiz (mkTgUser 8 None "Eleni") (Returns 2) 300
           (mkWorld (test_words 1) ∅ [StatRow.mk 7 3 1 2 100] ∅ [] [])).
  reflexivity.
Defined.

(** C10. For a user whose row exists: starting a session while the flag is
    inactive replaces the row, so the flag is 1, the name columns are the
    current ones, and [auto_quiz_enabled], [questions_per_session],
    [session_interval_minutes], [last_auto_quiz] and [joined_at] are back at
    the column defaults 1, 5, 15, NULL and the current time, whatever they
    were. Stopping a session, whether the flag is active or not, sets
    [quiz_session_active] to 0 and keeps every other column of the row.
    Neither command touches the row of another user. *)
Theorem session_start_replaces_row (user : TgUser) (now : Z) (w : World)
    (row : UserRow.t) :
  users w !! tg_id user = Some row →
  (UserRow.quiz_session_active row = false →
   users (world_of (quiz_session_command user now w)) !! tg_id user
   = Some (UserRow.mk (tg_username user) (Some (tg_first_name user)) true
             true 5 15 None now))
  ∧ users (world_of (stop_command user w)) !! tg_id user
    = Some (UserRow.mk (UserRow.username row) (UserRow.first_name row) false
              (UserRow.auto_quiz_enabled row)
              (UserRow.questions_per_session row)
              (UserRow.session_interval_minutes row)
              (UserRow.last_auto_quiz row) (UserRow.joined_at row))
  ∧ ∀ other, other ≠ tg_id user →
      users (world_of (quiz_session_command user now w)) !! other
      = users w !! other
      ∧ users (world_of (stop_command user w)) !! other = users w !! other.
Proof.
  intros Hrow.
  assert (UserRow.quiz_session_active row = false →
          users (world_of (quiz_session_command user now w))
          = insert_or_replace_user (users w) user now) as Hstart.
  { intros Hidle. unfold quiz_session_command, session_active.
    rewrite Hrow, Hidle.
    by destruct (quiz_command_tables user
      (send (tg_id user) SessionStarted
         (set_users (insert_or_replace_user (users w) user now) w)))
      as (_ & -> & _). }
  split; [|split].
  - intros Hidle. rewrite (Hstart Hidle). unfold insert_or_replace_user.
    by rewrite lookup_insert_eq.
  - unfold stop_command. simpl. unfold deactivate_session.
    by rewrite lookup_alter_eq, Hrow.
  - intros other Hother. split.
    + destruct (UserRow.quiz_session_active row) eqn:Hflag.
      * unfold quiz_session_command, session_active. by rewrite Hrow, Hflag.
      * rewrite (Hstart eq_refl). unfold insert_or_replace_user.
        by rewrite lookup_insert_ne.
    + unfold stop_command. simpl. unfold deactivate_session.
      by rewrite lookup_alter_ne.
Qed.

Lemma session_start_replaces_row_witness :
  users (world_of (quiz_session_command (mkTgUser 8 (Some "eleni") "Eleni")
                     900
                     (mkWorld (test_words 1)
                        {[ 8 := UserRow.mk (Some "eleni") (Some "Eleni")
                                  false false 10 30 (Some 500) 100 ]}
                        [] ∅ [] []))) !! 8
  = Some (UserRow.mk (Some "eleni") (Some "Eleni") true true 5 15 None 900)
  ∧ users (world_of (stop_command (mkTgUser 8 (Some "eleni") "Eleni")
                       (mkWorld (test_words 1)
                          {[ 8 := UserRow.mk (Some "lena") (Some "Lena")
                                    true false 10 30 (Some 500) 100 ]}
                          [] ∅ [] []))) !! 8
    = Some (UserRow.mk (Some "lena") (Some "Lena") false false 10 30
              (Some 500) 100).
Proof.
  split.
  - apply (session_start_replaces_row (mkTgUser 8 (Some "eleni") "Eleni") 900
             (mkWorld (test_words 1)
                {[ 8 := UserRow.mk (Some "eleni") (Some "Eleni")
                          false false 10 30 (Some 500) 100 ]}
                [] ∅ [] [])
             (UserRow.mk (Some "eleni") (Some "Eleni")
                false false 10 30 (Some 500) 100)); reflexivity.
  - apply (session_start_replaces_row (mkTgUser 8 (Some "eleni") "Eleni") 900
             (mkWorld (test_words 1)
                {[ 8 := UserRow.mk (Some "lena") (Some "Lena")
                          true false 10 30 (Some 500) 100 ]}
                [] ∅ [] [])
             (UserRow.mk (Some "lena") (Some "Lena")
                true false 10 30 (Some 500) 100)).
    reflexivity.
Defined.

(** ** Interleaved calls of [record_answer] *)

(** The two statements of a call, run back to back, are [record_answer]. *)
Lemma call_steps_record_answer (c : call) (tbl : list StatRow.t) :
  call_at c = NotStarted →
  let '(c1, tbl1) := call_step c tbl in
  let '(c2, tbl2) := call_step c1 tbl1 in
  match record_answer tbl (call_user c) (call_word c) (call_correct c)
          (call_now c) with
  | Returns tbl' => call_at c2 = Finished ∧ tbl2 = tbl'
  | Raises e => call_at c2 = Crashed e ∧ tbl2 = tbl
  end.
Proof.
  intros Hat. unfold call_step at 1. rewrite Hat.
  unfold call_step, record_answer. simpl.
  by destruct (record_answer_write _ _ _ _ _ _).
Qed.

(** C9, as the code has it. [record_answer] is a [SELECT] followed by a
    separate [UPDATE] or [INSERT]; it is no atomic upsert. When two calls
    for one (user, word) pair run one after the other, as they do where no
    other statement can come between the two statements of a call, both
    complete and both answers are counted. *)
Theorem record_answer_sequential (tbl : list StatRow.t) (user_id word_id : Z)
    (correct1 correct2 : bool) (now1 now2 : Z) :
  NoDup (stat_key <$> tbl) →
  ∃ tbl',
    run_schedule [false; false; true; true]
      (mkCall user_id word_id correct1 now1 NotStarted)
      (mkCall user_id word_id correct2 now2 NotStarted) tbl
    = (mkCall user_id word_id correct1 now1 Finished,
       mkCall user_id word_id correct2 now2 Finished, tbl')
    ∧ answers_recorded tbl' user_id word_id
      = answers_recorded tbl user_id word_id + 2
    ∧ correct_recorded tbl' user_id word_id
      = correct_recorded tbl user_id word_id
        + (if correct1 then 1 else 0) + (if correct2 then 1 else 0).
Proof.
  intros Hnd.
  destruct (record_answer_effect tbl user_id word_id correct1 now1 Hnd)
    as (tbl1 & Hret1 & Hnd1 & Hrow1 & _).
  destruct (record_answer_effect tbl1 user_id word_id correct2 now2 Hnd1)
    as (tbl2 & Hret2 & _ & Hrow2 & _).
  exists tbl2. unfold record_answer in Hret1, Hret2.
  cbn [run_schedule call_step call_at set_at call_user call_word
       call_correct call_now].
  rewrite Hret1. cbn [call_at set_at call_user call_word call_correct
                      call_now].
  rewrite Hret2. split; [done|].
  unfold answers_recorded, correct_recorded in *.
  rewrite Hrow2, Hrow1. unfold sum_Z. simpl. lia.
Qed.

Lemma record_answer_sequential_witness :
  ∃ tbl',
    run_schedule [false; false; true; true]
      (mkCall 7 3 true 200 NotStarted) (mkCall 7 3 false 201 NotStarted)
      [StatRow.mk 7 3 1 1 100]
    = (mkCall 7 3 true 200 Finished, mkCall 7 3 false 201 Finished, tbl')
    ∧ answers_recorded tbl' 7 3 = 3.
Proof.
  destruct (record_answer_sequential [StatRow.mk 7 3 1 1 100] 7 3
              true false 200 201) as (tbl' & Hrun & Htotal & _).
  - refine (bool_decide_unpack _ _). vm_compute. exact I.
  - exists tbl'. split; [exact Hrun|exact Htotal].
Defined.

(** C9 as stated fails: when the two [SELECT]s run before either [UPDATE],
    both calls complete, yet the row counts one answer, not two. *)
Lemma record_answer_lost_update :
  run_schedule [false; true; false; true]
    (mkCall 7 3 true 200 NotStarted) (mkCall 7 3 false 201 NotStarted)
    [StatRow.mk 7 3 1 1 100]
  = (mkCall 7 3 true 200 Finished, mkCall 7 3 false 201 Finished,
     [StatRow.mk 7 3 1 2 201])
  ∧ answers_recorded [StatRow.mk 7 3 1 2 201] 7 3 = 2
  ∧ answers_recorded [StatRow.mk 7 3 1 1 100] 7 3 + 2 = 3.
Proof. repeat split. Qed.

(** On a first answer the second [INSERT] of such an interleaving is
    refused by the uniqueness constraint, and that answer is lost too. *)
Example record_answer_lost_insert :
  run_schedule [false; true; false; true]
    (mkCall 7 3 true 200 NotStarted) (mkCall 7 3 true 201 NotStarted) []
  = (mkCall 7 3 true 200 Finished,
     mkCall 7 3 true 201 (Crashed IntegrityError),
     [StatRow.mk 7 3 1 1 200]).
Proof. reflexivity. Qed.

(** * Further properties of the code *)

(** ** Distractors *)

(** X1. The distractor generator samples without replacement from the rows
    the query selects: the answers are the translations of distinct rows
    among the candidates, and there are [count] of them, or as many as
    there are candidates when those are fewer. *)
Theorem generate_wrong_answers_sample (words : list WordRow.t)
    (word : WordRow.t) (count : nat) (g : Rng) :
  ∃ rows, rows ⊆+ available_distractors words word
    ∧ fst (generate_wrong_answers words (WordRow.id word)
             (WordRow.word_type word) (WordRow.russian word) count g)
      = WordRow.russian <$> rows
    ∧ length rows
      = (count `min` length (available_distractors words word))%nat.
Proof.
  destruct (generate_wrong_answers_spec words word count g) as (p & Hp & ->).
  exists (take count p). split; [|split; [done|]].
  - rewrite <- Hp. apply sublist_submseteq, sublist_take.
  - by rewrite length_take, Hp.
Qed.

(** X2. Every answer the distractor generator returns is the translation
    of a row of the vocabulary with the category asked for; for a phrase it
    differs from the correct text, and for any other category it comes from
    a row whose id is not the correct word's. *)
Theorem generate_wrong_answers_sound (words : list WordRow.t) (word_id : Z)
    (word_type correct_answer : string) (count : nat) (g : Rng) (a : string) :
  a ∈ fst (generate_wrong_answers words word_id word_type correct_answer
             count g) →
  ∃ r, r ∈ words ∧ WordRow.russian r = a ∧ WordRow.word_type r = word_type
    ∧ if decide (word_type = "phrase") then a ≠ correct_answer
      else WordRow.id r ≠ word_id.
Proof.
  unfold generate_wrong_answers. case_decide as Hty.
  - unfold generate_wrong_answers_for_phrase.
    destruct (order_by_random_limit_spec count
      (filter (λ r, WordRow.russian r ≠ correct_answer
                    ∧ WordRow.word_type r = "phrase") words) g)
      as (p & Hp & Hr).
    destruct (order_by_random_limit _ _ g) as [results g1].
    simpl in *. subst results.
    intros (r & -> & Hin)%list_elem_of_fmap.
    assert (r ∈ p) as Hin'
      by (eapply elem_of_sublist; [done|apply sublist_take]).
    rewrite Hp in Hin'. apply list_elem_of_filter in Hin' as [[Hru Hrt] Hw].
    exists r. repeat split; try done. congruence.
  - unfold generate_wrong_answers_for_word.
    destruct (order_by_random_limit_spec count
      (filter (λ r, WordRow.id r ≠ word_id
                    ∧ WordRow.word_type r = word_type) words) g)
      as (p & Hp & Hr).
    destruct (order_by_random_limit _ _ g) as [results g1].
    simpl in *. subst results.
    intros (r & -> & Hin)%list_elem_of_fmap.
    assert (r ∈ p) as Hin'
      by (eapply elem_of_sublist; [done|apply sublist_take]).
    rewrite Hp in Hin'. apply list_elem_of_filter in Hin' as [[Hid Hrt] Hw].
    by exists r.
Qed.

Lemma lookup_delete_other {A} (l : list A) (i j : nat) (a : A) :
  l !! j = Some a → j ≠ i → a ∈ delete i l.
Proof.
  revert i j. induction l as [|x l IH]; intros i j Hj Hne; [done|].
  destruct i as [|i], j as [|j]; simpl in *; try done.
  - by eapply list_elem_of_lookup_2.
  - injection Hj as ->. left.
  - right. eapply IH; [done|lia].
Qed.

(** ** Quiz generation *)

(** X3. A returned quiz is about a word of the vocabulary: it carries the
    id and the category of the sampled word, asks for its Greek term in
    direction GR→RU and for its translation in direction RU→GR, and every
    answer at another position than [correct_index] is the same field of a
    row of that category whose id is not the word's or, for translations of
    a phrase, whose translation is not the word's. *)
Theorem generate_quiz_fields (words : list WordRow.t) (user_id : option Z)
    (g : Rng) (q : Quiz.t) :
  fst (generate_quiz words user_id g) = Returns (Some q) →
  ∃ word, word ∈ words
    ∧ Quiz.word_id q = WordRow.id word
    ∧ Quiz.word_type q = WordRow.word_type word
    ∧ Quiz.question q = question_field (Quiz.direction q) word
    ∧ ∀ j a, j ≠ Quiz.correct_index q → Quiz.answers q !! j = Some a →
        ∃ r, r ∈ distractor_rows words word (Quiz.direction q)
          ∧ answer_field (Quiz.direction q) r = a.
Proof.
  intros Hq. pose proof (generate_quiz_result words user_id g) as Hres.
  pose proof (select_random_word_elem_of words user_id g) as Hin.
  destruct (fst (select_random_word words user_id g)) as [word|];
    [|by rewrite Hq in Hres].
  specialize (Hin word eq_refl). rewrite Hq in Hres.
  inversion Hres as [|direction p all i Hav Hp Hall Hi Heq]; subst q.
  exists word. simpl. repeat split; try done.
  intros j a Hj Ha. apply list_index_lookup in Hi.
  assert (delete i all ≡ₚ answer_field direction <$> take 3 p) as Hrest.
  { apply (Permutation_cons_inv (a:=answer_field direction word)).
    rewrite <- Hall. symmetry. by apply delete_Permutation. }
  pose proof (lookup_delete_other all i j a Ha Hj) as Hmem.
  rewrite Hrest in Hmem. apply list_elem_of_fmap in Hmem as (r & -> & Hr).
  exists r. split; [|done]. rewrite <- Hp.
  eapply elem_of_sublist; [done|apply sublist_take].
Qed.

Lemma sublist_full {A} (l1 l2 : list A) :
  l1 `sublist_of` l2 → (length l2 ≤ length l1)%nat → l1 = l2.
Proof.
  induction 1 as [|x l1 l2 Hsub IH|x l1 l2 Hsub IH]; simpl; intros Hlen.
  - done.
  - f_equal. apply IH. lia.
  - apply sublist_length in Hsub. lia.
Qed.

Lemma available_distractors_length (words : list WordRow.t) (word : WordRow.t) :
  word ∈ words →
  (length (available_distractors words word)
   < length (rows_of_type words (WordRow.word_type word)))%nat.
Proof.
  intros Hin.
  pose proof (distractor_rows_sublist words word true) as Hsub.
  unfold available_distractors. set (ty := WordRow.word_type word) in *.
  assert (word ∈ rows_of_type words ty) as Hw
    by (apply list_elem_of_filter; by split).
  assert (word ∉ distractor_rows words word true) as Hnot.
  { unfold distractor_rows. simpl. fold ty.
    case_bool_decide; intros [[Hne _] _]%list_elem_of_filter; by apply Hne. }
  destruct (decide (length (distractor_rows words word true)
                    < length (rows_of_type words ty))%nat) as [|Hge];
    [done|exfalso].
  apply Hnot.
  rewrite (sublist_full _ _ Hsub) by lia. done.
Qed.

(** X4. A category with fewer than four rows gives no quiz: whenever the
    sampled word's category has at most three rows, [generate_quiz] returns
    [None]. *)
Theorem generate_quiz_small_category (words : list WordRow.t)
    (user_id : option Z) (g : Rng) (word : WordRow.t) :
  fst (select_random_word words user_id g) = Some word →
  (length (rows_of_type words (WordRow.word_type word)) < 4)%nat →
  fst (generate_quiz words user_id g) = Returns None.
Proof.
  intros Hword Hfew.
  pose proof (generate_quiz_result words user_id g) as Hres.
  pose proof (select_random_word_elem_of words user_id g word Hword) as Hin.
  rewrite Hword in Hres.
  pose proof (available_distractors_length words word Hin).
  destruct Hres as [|direction p all i Hav]; [done|lia].
Qed.

Lemma filter_key_unique {A B} `{EqDecision B} (f : A → B) (k : B)
    (l : list A) :
  NoDup (f <$> l) → (length (filter (λ x, f x = k) l) ≤ 1)%nat.
Proof.
  induction l as [|x l IH]; simpl; [lia|].
  rewrite NoDup_cons. intros [Hx Hnd]. rewrite filter_cons.
  case_decide as Hk; [|by apply IH].
  simpl. rewrite filter_none; [simpl; lia|].
  intros y Hy Hfy. apply Hx. rewrite Hk, <- Hfy.
  by apply list_elem_of_fmap_2.
Qed.

Lemma length_filter_split {A} (P : A → Prop) `{!∀ x, Decision (P x)}
    (l : list A) :
  (length (filter P l) + length (filter (λ x, ¬ P x) l) = length l)%nat.
Proof. by rewrite <- length_app, filter_app_complement. Qed.

(** With distinct ids, the candidates for a word that is no phrase are all
    rows of its category but its own. *)
Lemma available_distractors_count (words : list WordRow.t) (word : WordRow.t) :
  NoDup (WordRow.id <$> words) → word ∈ words →
  WordRow.word_type word ≠ "phrase" →
  S (length (available_distractors words word))
  = length (rows_of_type words (WordRow.word_type word)).
Proof.
  intros Hids Hin Hty.
  unfold available_distractors, distractor_rows, rows_of_type. simpl.
  rewrite bool_decide_eq_false_2 by done.
  set (ty := WordRow.word_type word).
  rewrite <- (list_filter_filter (λ r, WordRow.id r ≠ WordRow.id word)
                (λ r, WordRow.word_type r = ty)).
  set (rows := filter (λ r, WordRow.word_type r = ty) words).
  pose proof (length_filter_split (λ r, WordRow.id r = WordRow.id word) rows)
    as Hsplit.
  assert (length (filter (λ r, WordRow.id r = WordRow.id word) rows) = 1%nat)
    as Hone.
  { assert (NoDup (WordRow.id <$> rows)) as Hnd.
    { eapply sublist_NoDup; [exact Hids|].
      apply fmap_sublist, sublist_filter. }
    pose proof (filter_key_unique WordRow.id (WordRow.id word) rows Hnd).
    assert (word ∈ filter (λ r, WordRow.id r = WordRow.id word) rows) as Hw.
    { apply list_elem_of_filter. split; [done|].
      apply list_elem_of_filter. by split. }
    destruct (filter _ rows) as [|? [|? ?]]; simpl in *;
      [by apply elem_of_nil in Hw|done|lia]. }
  lia.
Qed.

(** X5. With distinct ids, a sampled word that is no phrase and whose
    category has at least four rows always gives a quiz. *)
Theorem generate_quiz_large_category (words : list WordRow.t)
    (user_id : option Z) (g : Rng) (word : WordRow.t) :
  NoDup (WordRow.id <$> words) →
  fst (select_random_word words user_id g) = Some word →
  WordRow.word_type word ≠ "phrase" →
  (4 ≤ length (rows_of_type words (WordRow.word_type word)))%nat →
  ∃ q, fst (generate_quiz words user_id g) = Returns (Some q)
    ∧ Quiz.word_id q = WordRow.id word.
Proof.
  intros Hids Hword Hty Hmany.
  pose proof (generate_quiz_result words user_id g) as Hres.
  pose proof (select_random_word_elem_of words user_id g word Hword) as Hin.
  rewrite Hword in Hres.
  pose proof (available_distractors_count words word Hids Hin Hty).
  destruct Hres as [|direction p all i Hav]; [lia|].
  by eexists.
Qed.

(** ** The test data *)

Lemma max_id_nonneg (l : list Z) : 0 ≤ foldr Z.max 0 l.
Proof. induction l; simpl; lia. Qed.

Lemma max_id_app (l k : list Z) :
  foldr Z.max 0 (l ++ k) = Z.max (foldr Z.max 0 l) (foldr Z.max 0 k).
Proof.
  pose proof (max_id_nonneg k).
  induction l as [|y l IH]; simpl; lia.
Qed.

Lemma next_word_id_snoc (words : list WordRow.t) (greek russian ty : string) :
  next_word_id
    (words ++ [WordRow.mk (next_word_id words) greek russian ty])
  = next_word_id words + 1.
Proof.
  unfold next_word_id. rewrite fmap_app, max_id_app.
  pose proof (max_id_nonneg (WordRow.id <$> words)) as Hpos.
  set (M := foldr Z.max 0 (WordRow.id <$> words)) in *.
  simpl. lia.
Qed.

Lemma next_word_id_above (words : list WordRow.t) (r : WordRow.t) :
  r ∈ words → WordRow.id r < next_word_id words.
Proof.
  unfold next_word_id.
  induction 1 as [|x y l Hin IH]; rewrite fmap_cons; cbn [foldr]; lia.
Qed.

Lemma foldl_insert_or_ignore (vals : list (string * string * string)) :
  ∀ words, Forall (λ v, v.2 ∈ allowed_word_types) vals →
  foldl insert_or_ignore_word words vals
  = words ++ imap (λ i v, WordRow.mk (next_word_id words + Z.of_nat i)
                            v.1.1 v.1.2 v.2) vals.
Proof.
  induction vals as [|[[greek russian] ty] vals IH]; intros words Hok.
  - simpl. by rewrite app_nil_r.
  - apply Forall_cons in Hok as [Hty Hok]. simpl in Hty.
    cbn [foldl insert_or_ignore_word]. rewrite decide_True by done.
    rewrite IH by done. rewrite next_word_id_snoc, <- app_assoc.
    f_equal. cbn [imap app]. f_equal; [f_equal; simpl; lia|].
    apply imap_ext. intros i v _. simpl. f_equal. lia.
Qed.

Lemma add_test_data_eq (words : list WordRow.t) :
  add_test_data words = words ++ test_words (next_word_id words).
Proof.
  unfold add_test_data. rewrite foldl_insert_or_ignore.
  - f_equal. unfold test_data, test_words. cbn [imap]. simpl.
    repeat f_equal; lia.
  - unfold test_data, allowed_word_types.
    repeat (apply Forall_cons; split; [simpl; set_solver|]).
    apply Forall_nil_2.
Qed.

Lemma count_word_test_words (k : Z) :
  Forall (λ v, count_word (test_words k) v = 1%nat) test_data.
Proof. repeat constructor. Qed.

Lemma add_test_data_effect (words : list WordRow.t) :
  length (add_test_data words) = (length words + 8)%nat
  ∧ (NoDup (WordRow.id <$> words) →
     NoDup (WordRow.id <$> add_test_data words))
  ∧ Forall (λ v, count_word (add_test_data words) v
                 = S (count_word words v)) test_data.
Proof.
  rewrite add_test_data_eq. split; [|split].
  - by rewrite length_app.
  - intros Hnd. rewrite fmap_app. apply NoDup_app. split; [done|]. split.
    + intros k (r & -> & Hr)%list_elem_of_fmap Hk.
      pose proof (next_word_id_above words r Hr).
      simpl in Hk.
      repeat (apply elem_of_cons in Hk as [Hk|Hk]; [lia|]).
      by apply elem_of_nil in Hk.
    + simpl. repeat (apply NoDup_cons; split;
        [rewrite ?elem_of_cons, elem_of_nil; lia|]).
      apply NoDup_nil_2.
  - pose proof (count_word_test_words (next_word_id words)) as Hone.
    eapply Forall_impl; [exact Hone|]. intros v Hv. simpl in *.
    unfold count_word in *. rewrite filter_app, length_app, Hv. lia.
Qed.

(** X6. [add_test_data] never looks at what the table holds: each call
    appends the eight test rows under fresh consecutive ids, keeps the ids
    distinct, and raises the number of rows carrying each test word by
    one. *)
Theorem add_test_data_appends (words : list WordRow.t) :
  add_test_data words = words ++ test_words (next_word_id words)
  ∧ (NoDup (WordRow.id <$> words) →
     NoDup (WordRow.id <$> add_test_data words))
  ∧ Forall (λ v, count_word (add_test_data words) v
                 = S (count_word words v)) test_data.
Proof.
  split; [apply add_test_data_eq|].
  by destruct (add_test_data_effect words) as (_ & ? & ?).
Qed.

(** X7. A database that was empty and has seen [n] starts of the bot holds
    [8 * n] words with distinct ids, and every test word [n] times. *)
Theorem add_test_data_starts (n : nat) :
  let words := Nat.iter n add_test_data [] in
  length words = (8 * n)%nat
  ∧ NoDup (WordRow.id <$> words)
  ∧ Forall (λ v, count_word words v = n) test_data.
Proof.
  cbv zeta. induction n as [|n (Hlen & Hnd & Hcount)].
  - simpl. split; [done|]. split; [apply NoDup_nil_2|].
    repeat constructor.
  - simpl Nat.iter.
    destruct (add_test_data_effect (Nat.iter n add_test_data []))
      as (Hlen' & Hnd' & Hcount').
    split; [lia|]. split; [by apply Hnd'|].
    rewrite Forall_forall in *. intros v Hv.
    rewrite Hcount' by done. f_equal. by apply Hcount.
Qed.

(** ** Statistics *)

(** Recording an answer of one user leaves the rows of every other user. *)
Lemma record_answer_other_rows (tbl tbl' : list StatRow.t)
    (user_id word_id : Z) (is_correct : bool) (now : Z) (other : Z) :
  record_answer tbl user_id word_id is_correct now = Returns tbl' →
  other ≠ user_id →
  filter (λ r, StatRow.user_id r = other) tbl'
  = filter (λ r, StatRow.user_id r = other) tbl
  ∧ get_user_stats tbl' other = get_user_stats tbl other.
Proof.
  intros Hret Hother.
  assert (filter (λ r, StatRow.user_id r = other) tbl'
          = filter (λ r, StatRow.user_id r = other) tbl) as Hrows.
  { unfold record_answer, record_answer_write in Hret.
    destruct (select_stat tbl user_id word_id) as [|stat rest] eqn:Hsel.
    - unfold insert_stat in Hret. simpl in Hret. rewrite Hsel in Hret.
      injection Hret as <-. rewrite filter_app.
      rewrite (filter_none _ [_]); [by rewrite app_nil_r|].
      intros r ->%list_elem_of_singleton. simpl. congruence.
    - injection Hret as <-. unfold update_stat.
      rewrite filter_fmap_stable.
      + apply fmap_id_on. intros r [Hr _]%list_elem_of_filter.
        rewrite decide_False; [done|]. intros [Hu _]. congruence.
      + intros r. case_decide as Hk; [|done]. simpl.
        destruct Hk as [-> _]. done. }
  split; [done|]. unfold get_user_stats. by rewrite Hrows.
Qed.

(** X8. Recording an answer of one user changes nothing for another user:
    the rows of the other user, and so the statistics reported to that
    user, are the same before and after. *)
Theorem record_answer_other_user (tbl tbl' : list StatRow.t)
    (user_id word_id : Z) (is_correct : bool) (now : Z) (other : Z) :
  record_answer tbl user_id word_id is_correct now = Returns tbl' →
  other ≠ user_id →
  filter (λ r, StatRow.user_id r = other) tbl'
  = filter (λ r, StatRow.user_id r = other) tbl
  ∧ get_user_stats tbl' other = get_user_stats tbl other.
Proof. apply record_answer_other_rows. Qed.

Lemma int_true_div_same (q : Z) :
  0 < q < 2 ^ 63 →
  int_true_div q q = S754_finite false 4503599627370496 (-52).
Proof.
  intros Hq.
  destruct (int_true_div_spec q q) as (m & E & -> & Hm & HE & Herr);
    [lia|lia|].
  assert (Z.pos m = 2 ^ E) as HmE by nia.
  assert (E = 52) as ->.
  { destruct (Z.lt_trichotomy E 52) as [Hlt|[Heq|Hgt]]; [|done|].
    - pose proof (Z.pow_lt_mono_r 2 E 52). lia.
    - pose proof (Z.pow_le_mono_r 2 53 E). lia. }
  f_equal. change (2 ^ 52) with (Z.pos 4503599627370496) in HmE.
  by injection HmE.
Qed.

(** X9. The rate stays between 0.0 and 100.0 for every user with ordered
    counters and at most 2^40 answers; it is 100.0 when all answers were
    correct and 0.0 when none was. *)
Theorem success_rate_range (tbl : list StatRow.t) (user_id : Z) :
  Forall counts_ordered tbl →
  user_total tbl user_id ≤ 2 ^ 40 →
  (∃ t, 0 ≤ t ≤ 1000
     ∧ Stats.success_rate (get_user_stats tbl user_id) = decimal_tenths t)
  ∧ (0 < user_total tbl user_id →
     user_correct tbl user_id = user_total tbl user_id →
     Stats.success_rate (get_user_stats tbl user_id) = float_of_int 100)
  ∧ (user_correct tbl user_id = 0 →
     Stats.success_rate (get_user_stats tbl user_id) = S754_zero false).
Proof.
  intros Hord Hbound.
  pose proof (user_totals_ordered tbl user_id Hord) as Htot.
  rewrite get_user_stats_eq.
  destruct (filter _ tbl) as [|r rows] eqn:Hrows.
  { assert (user_total tbl user_id = 0) as Hz
      by (unfold user_total; by rewrite Hrows).
    split; [|split]; simpl; [|lia|done].
    exists 0. split; [lia|done]. }
  cbn [Stats.success_rate]. split; [|split].
  - destruct (decide (user_total tbl user_id = 0)) as [Hz|Hnz].
    + exists 0. split; [lia|]. rewrite Hz. unfold success_rate_of.
      by rewrite decide_False by lia.
    + destruct (success_rate_nearest (user_correct tbl user_id)
                  (user_total tbl user_id)) as (t & -> & Herr); [lia|lia|].
      exists t. split; [nia|done].
  - intros Hpos ->. unfold success_rate_of.
    rewrite decide_True by lia.
    rewrite int_true_div_same by lia. reflexivity.
  - intros ->. unfold success_rate_of. case_decide; [|done].
    unfold int_true_div.
    replace (user_total tbl user_id <? 0) with false
      by (symmetry; apply Z.ltb_ge; lia).
    reflexivity.
Qed.

(** ** Handlers: one update *)

Lemma generate_quiz_no_raise (words : list WordRow.t) (user_id : option Z)
    (g : Rng) (e : exn) :
  fst (generate_quiz words user_id g) ≠ Raises e.
Proof.
  intros He. pose proof (generate_quiz_result words user_id g) as Hres.
  destruct (fst (select_random_word words user_id g)); rewrite He in Hres;
    [inversion Hres|done].
Qed.

(** What [answer_callback] does with an answer it accepts. *)
Lemma answer_callback_accepts (user : TgUser) (i now : Z) (w : World)
    (quiz_data : Quiz.t) :
  user_data w !! tg_id user = Some quiz_data →
  NoDup (stat_key <$> user_stats w) →
  (Quiz.correct_index quiz_data < length (Quiz.answers quiz_data))%nat →
  ∃ w' tbl' correct_answer more,
    answer_callback user (Returns i) now w = Done w'
    ∧ record_answer (user_stats w) (tg_id user) (Quiz.word_id quiz_data)
        (check_answer quiz_data i) now = Returns tbl'
    ∧ user_stats w' = tbl' ∧ users w' = users w ∧ words w' = words w
    ∧ Quiz.answers quiz_data !! Quiz.correct_index quiz_data
      = Some correct_answer
    ∧ sent w'
      = sent w ++ (tg_id user,
                   answer_reply quiz_data i correct_answer
                     (get_user_stats tbl' (tg_id user))) :: more
    ∧ match (if session_active w (tg_id user)
             then fst (generate_quiz (words w) (Some (tg_id user)) (rng w))
             else Returns None) with
      | Returns (Some next) =>
          more = [(tg_id user, QuizQuestion next)]
          ∧ user_data w' = <[tg_id user := next]> (user_data w)
      | _ => more = [] ∧ user_data w' = delete (tg_id user) (user_data w)
      end.
Proof.
  intros Hq Hnd Hrange.
  destruct (record_answer_effect (user_stats w) (tg_id user)
              (Quiz.word_id quiz_data) (check_answer quiz_data i) now Hnd)
    as (tbl' & Hret & _).
  destruct (lookup_lt_is_Some_2 _ _ Hrange) as [correct_answer Hca].
  unfold answer_callback. rewrite Hq, Hret, Hca.
  unfold answer_reply.
  assert (∀ resp : Stats.t → Message,
    ∃ w' more,
      (let w0 := set_user_stats tbl' w in
       let stats := get_user_stats (user_stats w0) (tg_id user) in
       let w1 := send (tg_id user) (resp stats) w0 in
       let w2 := set_user_data (delete (tg_id user) (user_data w1)) w1 in
       if session_active w2 (tg_id user)
       then
         let '(r, g) :=
           generate_quiz (words w2) (Some (tg_id user)) (rng w2) in
         let w3 := set_rng g w2 in
         match r with
         | Raises e => Failed e w3
         | Returns None => Done w3
         | Returns (Some quiz_data0) =>
             Done (send (tg_id user) (QuizQuestion quiz_data0)
                     (set_user_data
                        (<[tg_id user := quiz_data0]> (user_data w3)) w3))
         end
       else Done w2) = Done w'
      ∧ user_stats w' = tbl' ∧ users w' = users w ∧ words w' = words w
      ∧ sent w'
        = sent w ++ (tg_id user, resp (get_user_stats tbl' (tg_id user)))
                    :: more
      ∧ match (if session_active w (tg_id user)
               then fst (generate_quiz (words w) (Some (tg_id user)) (rng w))
               else Returns None) with
        | Returns (Some next) =>
            more = [(tg_id user, QuizQuestion next)]
            ∧ user_data w' = <[tg_id user := next]> (user_data w)
        | _ => more = [] ∧ user_data w' = delete (tg_id user) (user_data w)
        end) as Hgen.
  { intros resp. cbv zeta. unfold session_active at 1. simpl.
    fold (session_active w (tg_id user)).
    destruct (session_active w (tg_id user)).
    - pose proof (generate_quiz_no_raise (words w) (Some (tg_id user))
                    (rng w)) as Hnr.
      destruct (generate_quiz (words w) (Some (tg_id user)) (rng w))
        as [[[next|]|e] g]; simpl in *.
      + eexists _, _. split; [done|]. simpl. repeat split; try done.
        * by rewrite <- app_assoc.
        * by rewrite insert_delete_eq.
      + eexists _, []. split; [done|]. simpl. repeat split; done.
      + by destruct (Hnr e).
    - eexists _, []. split; [done|]. simpl. repeat split; done. }
  destruct (check_answer quiz_data i).
  - destruct (Hgen AnswerCorrect) as (w' & more & Hrun & H1 & H2 & H3 & H4 & H5).
    exists w', tbl', correct_answer, more. by repeat split.
  - destruct (Hgen (AnswerWrong correct_answer))
      as (w' & more & Hrun & H1 & H2 & H3 & H4 & H5).
    exists w', tbl', correct_answer, more. by repeat split.
Qed.

(** X10. An answer to the stored quiz is recorded and reported: the handler
    completes, the user's totals grow by one answer and by one correct
    answer exactly when the selected index is the correct one, the first
    message sent is the verdict with the statistics that already include
    this answer, and the vocabulary and the session flags are as before. *)
Theorem answer_callback_records (user : TgUser) (i now : Z) (w : World)
    (quiz_data : Quiz.t) :
  user_data w !! tg_id user = Some quiz_data →
  NoDup (stat_key <$> user_stats w) →
  (Quiz.correct_index quiz_data < length (Quiz.answers quiz_data))%nat →
  ∃ w' correct_answer more,
    answer_callback user (Returns i) now w = Done w'
    ∧ user_total (user_stats w') (tg_id user)
      = user_total (user_stats w) (tg_id user) + 1
    ∧ user_correct (user_stats w') (tg_id user)
      = user_correct (user_stats w) (tg_id user)
        + (if decide (i = Z.of_nat (Quiz.correct_index quiz_data))
           then 1 else 0)
    ∧ Quiz.answers quiz_data !! Quiz.correct_index quiz_data
      = Some correct_answer
    ∧ sent w'
      = sent w ++ (tg_id user,
                   answer_reply quiz_data i correct_answer
                     (get_user_stats (user_stats w') (tg_id user))) :: more
    ∧ users w' = users w ∧ words w' = words w.
Proof.
  intros Hq Hnd Hrange.
  destruct (answer_callback_accepts user i now w quiz_data Hq Hnd Hrange)
    as (w' & tbl' & ca & more & Hrun & Hret & Hst & Hu & Hw & Hca & Hsent & _).
  destruct (record_answer_user_totals _ _ _ _ _ _ Hnd Hret)
    as (_ & Ht & Hc & _).
  exists w', ca, more. rewrite Hst. repeat split; try done.
  rewrite Hc. unfold check_answer.
  by destruct (decide (i = Z.of_nat (Quiz.correct_index quiz_data)));
    [rewrite bool_decide_eq_true_2|rewrite bool_decide_eq_false_2].
Qed.

(** X11. An accepted answer uses up the stored quiz: for a user without an
    active session, whatever arrives as a second answer is turned away with
    the "quiz data not found" message and changes neither table. *)
Theorem second_answer_rejected (user : TgUser) (i now : Z) (w w' : World)
    (again : outcome Z) (later : Z) :
  session_active w (tg_id user) = false →
  answer_callback user (Returns i) now w = Done w' →
  answer_callback user again later w'
  = Done (mkWorld (words w') (users w') (user_stats w') (user_data w')
            (sent w' ++ [(tg_id user, QuizDataNotFound)]) (rng w')).
Proof.
  intros Hidle Hfirst.
  pose proof (answer_consumes_quiz user i now w w' Hidle Hfirst) as Hgone.
  unfold answer_callback. by rewrite Hgone.
Qed.

(** X12. In an active session an accepted answer is followed by the next
    question when one can be generated: it becomes the stored quiz and is
    the last message sent. When none can be generated, only the verdict is
    sent, no quiz is stored and the session stays active. *)
Theorem answer_callback_advances (user : TgUser) (i now : Z) (w : World)
    (quiz_data : Quiz.t) :
  user_data w !! tg_id user = Some quiz_data →
  NoDup (stat_key <$> user_stats w) →
  (Quiz.correct_index quiz_data < length (Quiz.answers quiz_data))%nat →
  session_active w (tg_id user) = true →
  ∃ w' reply,
    answer_callback user (Returns i) now w = Done w'
    ∧ is_answer_reply reply = true
    ∧ session_active w' (tg_id user) = true
    ∧ match fst (generate_quiz (words w) (Some (tg_id user)) (rng w)) with
      | Returns (Some next) =>
          user_data w' !! tg_id user = Some next
          ∧ sent w' = sent w ++ [(tg_id user, reply);
                                 (tg_id user, QuizQuestion next)]
      | _ =>
          user_data w' !! tg_id user = None
          ∧ sent w' = sent w ++ [(tg_id user, reply)]
      end.
Proof.
  intros Hq Hnd Hrange Hact.
  destruct (answer_callback_accepts user i now w quiz_data Hq Hnd Hrange)
    as (w' & tbl' & ca & more & Hrun & _ & _ & Hu & _ & _ & Hsent & Hnext).
  rewrite Hact in Hnext.
  exists w', (answer_reply quiz_data i ca (get_user_stats tbl' (tg_id user))).
  split; [done|]. split.
  { unfold answer_reply. by destruct (check_answer quiz_data i). }
  split; [unfold session_active in *; by rewrite Hu|].
  destruct (fst (generate_quiz (words w) (Some (tg_id user)) (rng w)))
    as [[next|]|e]; destruct Hnext as [-> ->]; split; try done.
  - apply lookup_insert_eq.
  - apply lookup_delete_eq.
  - apply lookup_delete_eq.
Qed.

(** X13. [/stop] leaves the stored quiz in place, and creates no row for a
    user who has none. The open question can still be answered after it:
    the answer is recorded and the verdict is the only message sent, no
    next question follows. *)
Theorem answer_after_stop (user : TgUser) (i now : Z) (w : World)
    (quiz_data : Quiz.t) :
  user_data w !! tg_id user = Some quiz_data →
  NoDup (stat_key <$> user_stats w) →
  (Quiz.correct_index quiz_data < length (Quiz.answers quiz_data))%nat →
  let w1 := world_of (stop_command user w) in
  user_data w1 = user_data w
  ∧ (users w !! tg_id user = None → users w1 = users w)
  ∧ ∃ w' reply,
      answer_callback user (Returns i) now w1 = Done w'
      ∧ is_answer_reply reply = true
      ∧ sent w' = sent w1 ++ [(tg_id user, reply)]
      ∧ user_data w' !! tg_id user = None
      ∧ user_total (user_stats w') (tg_id user)
        = user_total (user_stats w) (tg_id user) + 1.
Proof.
  intros Hq Hnd Hrange. cbv zeta.
  set (w1 := world_of (stop_command user w)).
  assert (user_data w1 = user_data w) as Hd by done.
  assert (user_stats w1 = user_stats w) as Hs by done.
  assert (session_active w1 (tg_id user) = false) as Hidle.
  { unfold w1, stop_command, session_active, deactivate_session. simpl.
    rewrite lookup_alter_eq. by destruct (users w !! tg_id user). }
  split; [done|]. split.
  { intros Hnone. unfold w1, stop_command, deactivate_session. simpl.
    apply map_eq. intros k. destruct (decide (k = tg_id user)) as [->|Hk].
    - by rewrite lookup_alter_eq, Hnone.
    - by rewrite lookup_alter_ne. }
  destruct (answer_callback_accepts user i now w1 quiz_data)
    as (w' & tbl' & ca & more & Hrun & Hret & Hst & _ & _ & _ & Hsent & Hnext).
  { by rewrite Hd. }
  { by rewrite Hs. }
  { done. }
  rewrite Hidle in Hnext. destruct Hnext as [-> Hdata].
  rewrite Hs in Hret.
  destruct (record_answer_user_totals _ _ _ _ _ _ Hnd Hret)
    as (_ & Ht & _).
  exists w', (answer_reply quiz_data i ca (get_user_stats tbl' (tg_id user))).
  split; [done|]. split.
  { unfold answer_reply. by destruct (check_answer quiz_data i). }
  split; [done|]. split.
  - rewrite Hdata. apply lookup_delete_eq.
  - by rewrite Hst.
Qed.

(** X14. [/quiz] never fails. When a quiz can be generated it replaces the
    stored quiz of this user and is sent; when none can, the "not enough
    words" message is sent and the stored quiz stays as it was. The stored
    quizzes of other users and the tables are untouched either way. *)
Theorem quiz_command_stores (user : TgUser) (w : World) :
  ∃ w', quiz_command user w = Done w'
    ∧ words w' = words w ∧ users w' = users w
    ∧ user_stats w' = user_stats w
    ∧ (∀ other, other ≠ tg_id user →
         user_data w' !! other = user_data w !! other)
    ∧ match fst (generate_quiz (words w) (Some (tg_id user)) (rng w)) with
      | Returns (Some q) =>
          user_data w' !! tg_id user = Some q
          ∧ sent w' = sent w ++ [(tg_id user, QuizQuestion q)]
      | _ =>
          user_data w' = user_data w
          ∧ sent w' = sent w ++ [(tg_id user, NotEnoughWords)]
      end.
Proof.
  unfold quiz_command.
  pose proof (generate_quiz_no_raise (words w) (Some (tg_id user)) (rng w))
    as Hnr.
  destruct (generate_quiz (words w) (Some (tg_id user)) (rng w))
    as [[[q|]|e] g]; simpl in *.
  - eexists. split; [done|]. simpl. repeat split; try done.
    + intros other Hother. by rewrite lookup_insert_ne.
    + apply lookup_insert_eq.
  - eexists. split; [done|]. simpl. repeat split; done.
  - by destruct (Hnr e).
Qed.

(** ** Handlers: any series of updates *)

Lemma answer_replies_app (w w' : World) (l : list (Z * Message)) (chat : Z) :
  sent w' = sent w ++ l →
  answer_replies w' chat
  = answer_replies w chat
    + Z.of_nat (length (filter (λ cm, cm.1 = chat
                                      ∧ is_answer_reply cm.2 = true) l)).
Proof.
  intros Hs. unfold answer_replies. rewrite Hs, filter_app, length_app. lia.
Qed.

Lemma answer_replies_other (w w' : World) (l : list (Z * Message)) (chat : Z) :
  sent w' = sent w ++ l →
  Forall (λ cm, cm.1 ≠ chat ∨ is_answer_reply cm.2 = false) l →
  answer_replies w' chat = answer_replies w chat.
Proof.
  intros Hs Hl. rewrite (answer_replies_app w w' l chat Hs).
  rewrite filter_none; [simpl; lia|].
  rewrite Forall_forall in Hl. intros cm Hcm [H1 H2].
  destruct (Hl cm Hcm) as [?|?]; congruence.
Qed.

(** What [quiz_command] leaves behind. *)
Lemma quiz_command_step (user : TgUser) (w : World) :
  well_formed w →
  ∃ w' msgs, quiz_command user w = Done w'
    ∧ well_formed w' ∧ words w' = words w ∧ users w' = users w
    ∧ user_stats w' = user_stats w
    ∧ sent w' = sent w ++ msgs
    ∧ Forall (λ cm, is_answer_reply cm.2 = false) msgs.
Proof.
  intros (Hnd & Hord & Hq). unfold quiz_command.
  pose proof (generate_quiz_no_raise (words w) (Some (tg_id user)) (rng w))
    as Hnr.
  pose proof (generate_quiz_index_in_range (words w) (Some (tg_id user))
                (rng w)) as Hin.
  destruct (generate_quiz (words w) (Some (tg_id user)) (rng w))
    as [[[q|]|e] g]; simpl in *.
  - eexists _, _. split; [done|]. simpl. repeat split; try done.
    + apply map_Forall_insert_2; [by apply Hin|done].
    + by repeat constructor.
  - eexists _, _. split; [done|]. simpl. repeat split; try done.
    by repeat constructor.
  - by destruct (Hnr e).
Qed.

(** One update, whatever it is. *)
Lemma handle_step (ev : Event) (w : World) :
  well_formed w →
  let w' := world_of (handle ev w) in
  well_formed w' ∧ words w' = words w
  ∧ (readable ev → handle ev w = Done w')
  ∧ ∀ u, user_total (user_stats w') u - answer_replies w' u
         = user_total (user_stats w) u - answer_replies w u.
Proof.
  intros Hwf. cbv zeta. destruct ev as [user|user now|user|user idx now].
  - (* /quiz *)
    destruct (quiz_command_step user w Hwf)
      as (w' & msgs & Hrun & Hwf' & Hw & _ & Hs & Hsent & Hmsgs).
    simpl. rewrite Hrun. simpl. split; [done|]. split; [done|].
    split; [done|].
    intros u. rewrite Hs. f_equal.
    apply (answer_replies_other w w' msgs u Hsent).
    eapply Forall_impl; [exact Hmsgs|]. by right.
  - (* /quiz_session *)
    simpl. unfold quiz_session_command.
    destruct (session_active w (tg_id user)).
    + simpl. split; [done|]. split; [done|]. split; [done|].
      intros u. f_equal.
      eapply (answer_replies_other w); [done|]. apply Forall_singleton. by right.
    + set (w1 := send (tg_id user) SessionStarted
                   (set_users (insert_or_replace_user (users w) user now) w)).
      assert (well_formed w1) as Hwf1 by done.
      destruct (quiz_command_step user w1 Hwf1)
        as (w' & msgs & Hrun & Hwf' & Hw & _ & Hs & Hsent & Hmsgs).
      rewrite Hrun. simpl. split; [done|]. split; [done|]. split; [done|].
      intros u. rewrite Hs. simpl. f_equal.
      apply (answer_replies_other w w'
               ((tg_id user, SessionStarted) :: msgs) u).
      * rewrite Hsent. simpl. by rewrite <- app_assoc.
      * constructor; [by right|].
        eapply Forall_impl; [exact Hmsgs|]. by right.
  - (* /stop *)
    simpl. split; [done|]. split; [done|]. split; [done|].
    intros u. f_equal.
    eapply (answer_replies_other w); [done|]. apply Forall_singleton. by right.
  - (* an answer *)
    simpl. destruct (user_data w !! tg_id user) as [quiz_data|] eqn:Hq.
    + destruct idx as [i|e].
      * destruct Hwf as (Hnd & Hord & Hquiz).
        pose proof (Hquiz _ _ Hq) as Hrange. simpl in Hrange.
        destruct (answer_callback_accepts user i now w quiz_data Hq Hnd
                    Hrange)
          as (w' & tbl' & ca & more & Hrun & Hret & Hst & Hu & Hw & Hca
              & Hsent & Hnext).
        rewrite Hrun. simpl.
        destruct (record_answer_effect (user_stats w) (tg_id user)
                    (Quiz.word_id quiz_data) (check_answer quiz_data i) now
                    Hnd) as (tbl'' & Hret' & Hnd' & _ & _ & _ & Hord').
        rewrite Hret in Hret'. injection Hret' as <-.
        destruct (record_answer_user_totals _ _ _ _ _ _ Hnd Hret)
          as (_ & Ht & _).
        assert ((more = [] ∧ user_data w' = delete (tg_id user) (user_data w))
                ∨ ∃ next, more = [(tg_id user, QuizQuestion next)]
                  ∧ fst (generate_quiz (words w) (Some (tg_id user)) (rng w))
                    = Returns (Some next)
                  ∧ user_data w' = <[tg_id user := next]> (user_data w))
          as Hmore.
        { destruct (session_active w (tg_id user)); [|by left].
          destruct (fst (generate_quiz _ _ _)) as [[next|]|?];
            [right; exists next; by destruct Hnext|by left..]. }
        clear Hnext.
        split; [|split; [done|split; [done|]]].
        -- split; [by rewrite Hst|]. split; [rewrite Hst; by apply Hord'|].
           destruct Hmore as [[-> ->]|(next & -> & Hgen & ->)].
           ++ by apply map_Forall_delete.
           ++ apply map_Forall_insert_2; [|done].
              by eapply generate_quiz_index_in_range.
        -- intros u. rewrite Hst.
           rewrite (answer_replies_app w w' _ u Hsent).
           destruct (decide (u = tg_id user)) as [->|Hu'].
           ++ rewrite Ht. rewrite filter_cons. simpl.
              rewrite decide_True
                by (split; [done|];
                    unfold answer_reply; by destruct (check_answer _ _)).
              rewrite filter_none; [simpl; lia|].
              intros cm Hcm [_ Hrep].
              destruct Hmore as [[-> _]|(next & -> & _)];
                [by apply elem_of_nil in Hcm|].
              apply list_elem_of_singleton in Hcm as ->. done.
           ++ destruct (record_answer_other_rows _ _ _ _ _ _ u Hret Hu')
                as [Hrows _].
              unfold user_total. rewrite Hrows.
              rewrite (filter_none _ (_ :: more)); [simpl; lia|].
              intros cm Hcm [Hc _]. apply Hu'. rewrite <- Hc.
              apply elem_of_cons in Hcm as [->|Hcm]; [done|].
              destruct Hmore as [[-> _]|(next & -> & _)];
                [by apply elem_of_nil in Hcm|].
              by apply list_elem_of_singleton in Hcm as ->.
      * unfold answer_callback. rewrite Hq. simpl.
        split; [done|]. split; [done|]. split; [done|]. done.
    + unfold answer_callback. rewrite Hq. simpl.
      split; [done|]. split; [done|]. split; [done|].
      intros u. f_equal.
      eapply (answer_replies_other w); [done|]. apply Forall_singleton. by right.
Qed.

(** X15. The handlers keep the state well formed and never write to the
    vocabulary: after any series of updates the statistics still satisfy
    their uniqueness constraint, every row has
    [0 ≤ correct_answers ≤ total_answers], every stored quiz has its correct
    index inside its answer list, and the [words] table is the one the
    series started with. *)
Theorem run_well_formed (events : list Event) (w : World) :
  well_formed w →
  well_formed (run events w) ∧ words (run events w) = words w.
Proof.
  revert w. induction events as [|ev events IH]; intros w Hwf; [done|].
  simpl. destruct (handle_step ev w Hwf) as (Hwf' & Hw & _).
  destruct (IH _ Hwf') as [Hwf'' Hw'']. split; [done|congruence].
Qed.

(** X16. From a well-formed state no handler raises as long as every
    button press carries callback data that holds an integer: quiz
    generation, the statistics update and the look-up of the correct answer
    all succeed, whatever the index and whatever the random draws. *)
Theorem run_no_failure (events : list Event) (w : World) :
  well_formed w → Forall readable events → run_failures events w = [].
Proof.
  revert w. induction events as [|ev events IH]; intros w Hwf Hread; [done|].
  apply Forall_cons in Hread as [Hev Hread]. simpl.
  destruct (handle_step ev w Hwf) as (Hwf' & _ & Hdone & _).
  rewrite (Hdone Hev). by apply IH.
Qed.

(** X17. Answers are recorded exactly when they are acknowledged: over any
    series of updates, the growth of a user's total number of recorded
    answers equals the number of verdicts sent to that user. *)
Theorem run_records_every_verdict (events : list Event) (w : World) (u : Z) :
  well_formed w →
  user_total (user_stats (run events w)) u - user_total (user_stats w) u
  = answer_replies (run events w) u - answer_replies w u.
Proof.
  revert w. induction events as [|ev events IH]; intros w Hwf; [simpl; lia|].
  simpl. destruct (handle_step ev w Hwf) as (Hwf' & _ & _ & Hstep).
  specialize (IH _ Hwf'). specialize (Hstep u). lia.
Qed.

(** ** Starting a session *)

(** X19. A session start by a user whose flag is not active never fails
    and always leaves the flag active: with enough words the announcement
    is followed by the first question, which becomes the stored quiz; with
    too few words it is followed by the "not enough words" message, and the
    session is active all the same. *)
Theorem quiz_session_command_starts (user : TgUser) (now : Z) (w : World) :
  session_active w (tg_id user) = false →
  ∃ w', quiz_session_command user now w = Done w'
    ∧ session_active w' (tg_id user) = true
    ∧ user_stats w' = user_stats w ∧ words w' = words w
    ∧ match fst (generate_quiz (words w) (Some (tg_id user)) (rng w)) with
      | Returns (Some q) =>
          user_data w' !! tg_id user = Some q
          ∧ sent w' = sent w ++ [(tg_id user, SessionStarted);
                                 (tg_id user, QuizQuestion q)]
      | _ =>
          user_data w' = user_data w
          ∧ sent w' = sent w ++ [(tg_id user, SessionStarted);
                                 (tg_id user, NotEnoughWords)]
      end.
Proof.
  intros Hidle. unfold quiz_session_command. rewrite Hidle.
  unfold quiz_command. simpl.
  pose proof (generate_quiz_no_raise (words w) (Some (tg_id user)) (rng w))
    as Hnr.
  destruct (generate_quiz (words w) (Some (tg_id user)) (rng w))
    as [[[q|]|e] g]; simpl in *.
  - eexists. split; [done|]. unfold session_active, insert_or_replace_user.
    simpl. rewrite !lookup_insert_eq. repeat split; try done.
    by rewrite <- app_assoc.
  - eexists. split; [done|]. unfold session_active, insert_or_replace_user.
    simpl. rewrite lookup_insert_eq. repeat split; try done.
    by rewrite <- app_assoc.
  - by destruct (Hnr e).
Qed.

(** ** Interleaved calls, in general *)



(** ** The further properties at concrete inputs *)

Lemma generate_wrong_answers_sound_witness :
  ∃ r, r ∈ test_words 1 ∧ WordRow.russian r = "дом"
    ∧ WordRow.word_type r = "noun" ∧ WordRow.id r ≠ 3.
Proof.
  apply (generate_wrong_answers_sound (test_words 1) 3 "noun" "вода" 3 []
           "дом").
  refine (bool_decide_unpack _ _). vm_compute. exact I.
Defined.

Lemma generate_quiz_fields_witness :
  ∃ word, word ∈ vocabulary_example ∧ 3 = WordRow.id word.
Proof.
  destruct (generate_quiz_fields vocabulary_example (Some 7)
              (2 :: replicate 12 0 ++ [1; 0; 0; 0; 1])%nat
              (Quiz.mk 3 "вода" ["σπίτι"; "νερό"; "ψωμί"; "γάλα"] 1 false
                 "noun")) as (word & Hin & Hid & _).
  - vm_compute. reflexivity.
  - exists word. split; [exact Hin|exact Hid].
Defined.

Lemma generate_quiz_small_category_witness :
  fst (generate_quiz (test_words 1) (Some 7) [2%nat]) = Returns None.
Proof.
  apply (generate_quiz_small_category (test_words 1) (Some 7) [2%nat]
           (WordRow.mk 3 "νερό" "вода" "noun")).
  - vm_compute. reflexivity.
  - vm_compute. lia.
Defined.

Lemma generate_quiz_large_category_witness :
  ∃ q, fst (generate_quiz vocabulary_example (Some 7) [2%nat])
       = Returns (Some q)
    ∧ Quiz.word_id q = 3.
Proof.
  apply (generate_quiz_large_category vocabulary_example (Some 7) [2%nat]
           (WordRow.mk 3 "νερό" "вода" "noun")).
  - refine (bool_decide_unpack _ _). vm_compute. exact I.
  - vm_compute. reflexivity.
  - discriminate.
  - vm_compute. lia.
Defined.

Lemma record_answer_other_user_witness :
  get_user_stats [StatRow.mk 7 3 2 3 200; StatRow.mk 8 3 0 1 150] 8
  = get_user_stats [StatRow.mk 7 3 1 2 100; StatRow.mk 8 3 0 1 150] 8.
Proof.
  destruct (record_answer_other_user
              [StatRow.mk 7 3 1 2 100; StatRow.mk 8 3 0 1 150]
              [StatRow.mk 7 3 2 3 200; StatRow.mk 8 3 0 1 150]
              7 3 true 200 8) as [_ Hstats].
  - reflexivity.
  - lia.
  - exact Hstats.
Defined.

Lemma success_rate_range_witness :
  ∃ t, 0 ≤ t ≤ 1000
    ∧ Stats.success_rate (get_user_stats [StatRow.mk 7 3 1 2 100] 7)
      = decimal_tenths t.
Proof.
  destruct (success_rate_range [StatRow.mk 7 3 1 2 100] 7) as [Hrange _].
  - apply Forall_singleton. unfold counts_ordered. simpl. lia.
  - vm_compute. discriminate.
  - exact Hrange.
Defined.

Lemma answer_callback_records_witness :
  ∃ w', answer_callback (mkTgUser 8 None "Eleni") (Returns 1) 300
          world_example = Done w'
    ∧ user_total (user_stats w') 8 = user_total (user_stats world_example) 8 + 1.
Proof.
  destruct (answer_callback_records (mkTgUser 8 None "Eleni") 1 300
              world_example
              (Quiz.mk 3 "вода" ["σπίτι"; "νερό"; "ψωμί"; "γάλα"] 1 false
                 "noun")) as (w' & ca & more & Hrun & Htotal & _).
  - reflexivity.
  - refine (bool_decide_unpack _ _). vm_compute. exact I.
  - simpl. lia.
  - exists w'. split; [exact Hrun|exact Htotal].
Defined.

Lemma second_answer_rejected_witness :
  ∃ w', answer_callback (mkTgUser 8 None "Eleni") (Returns 1) 300
          world_example = Done w'
    ∧ answer_callback (mkTgUser 8 None "Eleni") (Returns 1) 301 w'
      = Done (mkWorld (words w') (users w') (user_stats w') (user_data w')
                (sent w' ++ [(8, QuizDataNotFound)]) (rng w')).
Proof.
  destruct (answer_callback_accepts (mkTgUser 8 None "Eleni") 1 300
              world_example
              (Quiz.mk 3 "вода" ["σπίτι"; "νερό"; "ψωμί"; "γάλα"] 1 false
                 "noun")) as (w' & _ & _ & _ & Hrun & _).
  - reflexivity.
  - refine (bool_decide_unpack _ _). vm_compute. exact I.
  - simpl. lia.
  - exists w'. split; [exact Hrun|].
    apply (second_answer_rejected (mkTgUser 8 None "Eleni") 1 300
             world_example w' (Returns 1) 301).
    + reflexivity.
    + exact Hrun.
Defined.

Lemma answer_callback_advances_witness :
  ∃ w', answer_callback (mkTgUser 9 None "Nikos") (Returns 1) 300
          world_example = Done w'
    ∧ session_active w' 9 = true.
Proof.
  destruct (answer_callback_advances (mkTgUser 9 None "Nikos") 1 300
              world_example
              (Quiz.mk 6 "σπίτι" ["дом"; "вода"; "хлеб"; "молоко"] 0 true
                 "noun")) as (w' & reply & Hrun & _ & Hact & _).
  - reflexivity.
  - refine (bool_decide_unpack _ _). vm_compute. exact I.
  - simpl. lia.
  - reflexivity.
  - exists w'. split; [exact Hrun|exact Hact].
Defined.

Lemma answer_after_stop_witness :
  user_data (world_of (stop_command (mkTgUser 9 None "Nikos") world_example))
  = user_data world_example.
Proof.
  destruct (answer_after_stop (mkTgUser 9 None "Nikos") 1 300 world_example
              (Quiz.mk 6 "σπίτι" ["дом"; "вода"; "хлеб"; "молоко"] 0 true
                 "noun")) as (Hkept & _).
  - reflexivity.
  - refine (bool_decide_unpack _ _). vm_compute. exact I.
  - simpl. lia.
  - exact Hkept.
Defined.

Lemma world_example_well_formed : well_formed world_example.
Proof.
  split; [|split].
  - refine (bool_decide_unpack _ _). vm_compute. exact I.
  - apply Forall_singleton. unfold counts_ordered. simpl. lia.
  - unfold world_example. simpl.
    apply map_Forall_insert_2; [simpl; lia|].
    apply map_Forall_insert_2; [simpl; lia|]. apply map_Forall_empty.
Defined.

Lemma run_well_formed_witness :
  well_formed (run events_example world_example)
  ∧ words (run events_example world_example) = words world_example.
Proof.
  apply (run_well_formed events_example world_example).
  exact world_example_well_formed.
Defined.

Lemma run_no_failure_witness :
  run_failures events_example world_example = [].
Proof.
  apply (run_no_failure events_example world_example).
  - exact world_example_well_formed.
  - unfold events_example. repeat (apply Forall_cons; split; [exact I|]).
    apply Forall_nil_2.
Defined.

Lemma run_records_every_verdict_witness :
  user_total (user_stats (run events_example world_example)) 9
  - user_total (user_stats world_example) 9
  = answer_replies (run events_example world_example) 9
    - answer_replies world_example 9.
Proof.
  apply (run_records_every_verdict events_example world_example 9).
  exact world_example_well_formed.
Defined.

Lemma quiz_session_command_starts_witness :
  ∃ w', quiz_session_command (mkTgUser 8 None "Eleni") 900 world_example
        = Done w'
    ∧ session_active w' 8 = true.
Proof.
  destruct (quiz_session_command_starts (mkTgUser 8 None "Eleni") 900
              world_example) as (w' & Hrun & Hact & _).
  - reflexivity.
  - exists w'. split; [exact Hrun|exact Hact].
Defined.


(** The session scenario, run: the session starts and the first question
    is sent, an answer is followed by the next question, and after [/stop]
    the late answer gets its verdict and nothing more. *)
Example session_scenario :
  (λ cm, match cm.2 with
         | SessionStarted => 1 | QuizQuestion _ => 2 | AnswerCorrect _ => 3
         | AnswerWrong _ _ => 4 | SessionStopped _ => 5 | _ => 0
         end)
  <$> filter (λ cm, cm.1 = 8)
        (sent (run [QuizSessionCmd (mkTgUser 8 None "Eleni") 10;
                    AnswerPressed (mkTgUser 8 None "Eleni") (Returns 0) 20;
                    StopCmd (mkTgUser 8 None "Eleni");
                    AnswerPressed (mkTgUser 8 None "Eleni") (Returns 0) 30;
                    AnswerPressed (mkTgUser 8 None "Eleni") (Returns 0) 40]
               world_example))
  = [1; 2; 3; 2; 5; 3; 0].
Proof. vm_compute. reflexivity. Qed.
